(** * langchain-nextjs: the chat stream reconciler, the send handler and the
      agent route, embedded and verified

    The development follows three source units:
    - the chat component ([ChatInterface]): the message classifier
      ([isAIMessage], [isToolMessage], [isHumanMessage], [extractTextContent]),
      the tool-call reconciliation pass ([toolCallsByMessage]), the send
      handler ([handleSend]) and the render pass ([render]);
    - the agent route ([POST]).

    JavaScript values are modelled as JSON-like trees ([value]); an operation
    that JavaScript can abort with an exception, the conversion to a string
    included, returns a [completion].
    Message objects live in a store and the message sequence is a list of
    references into it, because the reconciler keys its [Map] by message
    reference. *)

From Stdlib Require Import Ascii String ZArith.
From stdpp Require Import base strings list gmap pretty.

Set Warnings "-register-all".
Open Scope string_scope.
Open Scope list_scope.

(** ** JavaScript values *)

Module JS.

(** JSON-like data plus [undefined].  Numbers are restricted to the
  integers among the Number values (no fraction, no NaN, no infinity); an
  integer of magnitude up to 2^53 is one, a larger one only when 53
  significant bits hold it.  An object is the ordered list of its own
  fields, all of them data (none is a function); a read returns the first
  binding of a key.  The tree has no sharing: two object or array
  occurrences below the top level are two allocations. *)
Inductive value : Type :=
| VUndefined
| VNull
| VBool (b : bool)
| VNum (n : Z)
| VStr (s : string)
| VArr (items : list value)
| VObj (fields : list (string * value)).

(** What a [throw] carries: an [Error] instance or any other value. *)
Inductive thrown : Type :=
| ErrorInstance (name message : string)
| ThrownValue (v : value).

(** Result of evaluating an expression that may throw. *)
Inductive completion (A : Type) : Type :=
| Normal (a : A)
| Throw (e : thrown).
Arguments Normal {A} a.
Arguments Throw {A} e.

#[export] Instance completion_bind : MBind completion := fun A B f c =>
match c with
| Normal a => f a
| Throw e => Throw e
end.

Definition TypeError (message : string) : thrown :=
ErrorInstance "TypeError" message.

(** [typeof v] *)
Definition typeof (v : value) : string :=
match v with
| VUndefined => "undefined"
| VNull => "object"
| VBool _ => "boolean"
| VNum _ => "number"
| VStr _ => "string"
| VArr _ => "object"
| VObj _ => "object"
end.

(** Truthiness ([ToBoolean]): what [!v], [v && e], [v || e] test. *)
Definition ToBoolean (v : value) : bool :=
match v with
| VUndefined => false
| VNull => false
| VBool b => b
| VNum n => negb (n =? 0)%Z
| VStr s => negb (String.eqb s "")
| VArr _ => true
| VObj _ => true
end.

(** [a === b].  Primitives compare by value; objects and arrays compare by
  reference, and two occurrences in a tree are never the same reference. *)
Definition strict_eq (a b : value) : bool :=
match a, b with
| VUndefined, VUndefined => true
| VNull, VNull => true
| VBool x, VBool y => Bool.eqb x y
| VNum x, VNum y => (x =? y)%Z
| VStr x, VStr y => String.eqb x y
| _, _ => false
end.

Definition isArray (v : value) : bool :=
match v with
| VArr _ => true
| _ => false
end.

(** Own field of an object. *)
Fixpoint own (fields : list (string * value)) (key : string) : option value :=
match fields with
| [] => None
| (k, v) :: rest => if String.eqb k key then Some v else own rest key
end.

(** The array index a property key denotes, if any: the key must be the
  canonical decimal form of a number (no sign, no leading zero). *)
Definition digit_of (c : ascii) : option nat :=
let n := nat_of_ascii c in
if (48 <=? n)%nat && (n <=? 57)%nat then Some (n - 48) else None.

Fixpoint parse_digits (s : string) (acc : nat) : option nat :=
match s with
| EmptyString => Some acc
| String c rest =>
    match digit_of c with
    | Some d => parse_digits rest (10 * acc + d)
    | None => None
    end
end.

Definition array_index (key : string) : option nat :=
match key with
| EmptyString => None
| String c rest =>
    if Ascii.eqb c "0" && negb (String.eqb rest "") then None
    else parse_digits key 0
end.

(** Element of an array addressed by a property key. *)
Definition element_at (key : string) (items : list value) : option value :=
match array_index key with
| Some i => items !! i
| None => None
end.

(** [v.key].  Reading a property of [undefined] or [null] throws a
  [TypeError]; a primitive has none of the data properties the program
  reads (of a string only [length] is modelled). *)
Definition Get (v : value) (key : string) : completion value :=
match v with
| VUndefined => Throw (TypeError ("Cannot read properties of undefined (reading '" +:+ key +:+ "')"))
| VNull => Throw (TypeError ("Cannot read properties of null (reading '" +:+ key +:+ "')"))
| VObj fields => Normal (default VUndefined (own fields key))
| VArr items =>
    if String.eqb key "length" then Normal (VNum (Z.of_nat (length items)))
    else Normal (default VUndefined (element_at key items))
| VStr s =>
    if String.eqb key "length" then Normal (VNum (Z.of_nat (String.length s)))
    else Normal VUndefined
| VBool _ => Normal VUndefined
| VNum _ => Normal VUndefined
end.

(** [key in v].  The right operand must be an object, otherwise the
  operator throws a [TypeError]. *)
Definition HasProperty (key : string) (v : value) : completion bool :=
match v with
| VObj fields => Normal (bool_decide (is_Some (own fields key)))
| VArr items =>
    Normal (String.eqb key "length" || bool_decide (is_Some (element_at key items)))
| _ => Throw (TypeError ("Cannot use 'in' operator to search for '" +:+ key +:+ "'"))
end.

(** *** [String(v)] *)

(** The Number value nearest to the non-negative integer [n]: a double
  keeps 53 significant bits and rounds the rest off, a half to the even
  neighbour.  A Number value is left as it is. *)
Definition to_Number (n : Z) : Z :=
if (n <? 2 ^ 53)%Z then n
else
  let shift := (Z.log2 n - 52)%Z in
  let q := Z.shiftr n shift in
  let r := (n - Z.shiftl q shift)%Z in
  let half := Z.shiftl 1 (shift - 1) in
  let q' := if (half <? r)%Z || ((r =? half)%Z && Z.odd q) then (q + 1)%Z else q in
  Z.shiftl q' shift.

(** The integer with the fewest significant digits that still denotes the
  Number value [x]: the multiple of the largest power of ten, from [10^e]
  downwards, that rounds to [x]; of the two multiples next to [x] the
  nearer one. *)
Fixpoint shortest_from (x : Z) (e : nat) : Z :=
let p := (10 ^ Z.of_nat e)%Z in
let lo := (x / p * p)%Z in
let hi := (lo + p)%Z in
let ok v := (0 <? v)%Z && (to_Number v =? x)%Z in
if ok lo && (negb (ok hi) || (x - lo <=? hi - x)%Z) then lo
else if ok hi then hi
else match e with
     | O => x
     | S e' => shortest_from x e'
     end.

Fixpoint strip_zeros (s : string) : string :=
match s with
| EmptyString => EmptyString
| String c rest =>
    match strip_zeros rest with
    | EmptyString => if Ascii.eqb c "0" then EmptyString else String c EmptyString
    | t => String c t
    end
end.

(** [d.ddde+n] for a number written with the decimal [digits]. *)
Definition exponent_form (digits : string) : string :=
let exponent := "e+" +:+ pretty (String.length digits - 1)%nat in
match strip_zeros digits with
| EmptyString => digits
| String c EmptyString => String c exponent
| String c rest => String c ("." +:+ rest +:+ exponent)
end.

(** [Number::toString] of a positive integer: the shortest digits that
  denote the number, written out in full below 10^21 and with an exponent
  from there on.  What rounds to 2^1024 is beyond the largest Number value
  and prints as [Infinity]. *)
Definition Number_toString_pos (x : Z) : string :=
let number := to_Number x in
if (2 ^ 1024 <=? number)%Z then "Infinity"
else
  let v := shortest_from number (Z.to_nat (Z.log2 x) + 2) in
  if (v <? 10 ^ 21)%Z then pretty v else exponent_form (pretty v).

Definition Number_toString (n : Z) : string :=
match n with
| Z0 => "0"
| Zpos _ => Number_toString_pos n
| Zneg p => "-" +:+ Number_toString_pos (Zpos p)
end.

(** [String(v)].  An array prints its elements separated by commas, [null]
  and [undefined] elements as the empty string.  An object is converted by
  the first of its [toString] and [valueOf] methods that is callable and
  returns a primitive.  The [toString] it inherits from [Object.prototype]
  prints ["[object Object]"]; an own field [toString] hides that method,
  and since the field is no function and [valueOf] gives no primitive, the
  conversion then throws a [TypeError]. *)
Fixpoint ToString (v : value) : completion string :=
match v with
| VUndefined => Normal "undefined"
| VNull => Normal "null"
| VBool true => Normal "true"
| VBool false => Normal "false"
| VNum n => Normal (Number_toString n)
| VStr s => Normal s
| VArr items =>
    (fix join (l : list value) : completion string :=
       match l with
       | [] => Normal ""
       | x :: rest =>
           sx ← match x with
                | VUndefined => Normal ""
                | VNull => Normal ""
                | _ => ToString x
                end;
           match rest with
           | [] => Normal sx
           | _ :: _ => tail ← join rest; Normal (sx +:+ "," +:+ tail)
           end
       end) items
| VObj fields =>
    match own fields "toString" with
    | Some _ => Throw (TypeError "Cannot convert object to primitive value")
    | None => Normal "[object Object]"
    end
end.

(** [a || b] on values. *)
Definition or_else (a b : value) : value :=
if ToBoolean a then a else b.

(** Code units that [String.prototype.trim] strips, among those below 256:
  tab, line feed, vertical tab, form feed, carriage return, space and the
  no-break space. *)
Definition is_white_space (c : ascii) : bool :=
let n := nat_of_ascii c in
(n =? 9)%nat || (n =? 10)%nat || (n =? 11)%nat || (n =? 12)%nat || (n =? 13)%nat
|| (n =? 32)%nat || (n =? 160)%nat.

Fixpoint trimStart (s : string) : string :=
match s with
| EmptyString => EmptyString
| String c rest => if is_white_space c then trimStart rest else s
end.

Fixpoint trimEnd (s : string) : string :=
match s with
| EmptyString => EmptyString
| String c rest =>
    match trimEnd rest with
    | EmptyString => if is_white_space c then EmptyString else String c EmptyString
    | t => String c t
    end
end.

(** [s.trim()] *)
Definition trim (s : string) : string := trimEnd (trimStart s).

(** [array.some(f)]: stops at the first element for which [f] holds. *)
Fixpoint Array_some {A} (f : A → completion bool) (l : list A) : completion bool :=
match l with
| [] => Normal false
| x :: rest => b ← f x; if b : bool then Normal true else Array_some f rest
end.

(** [array.find(f)]: the first element for which [f] holds, or [undefined]
  ([None]). *)
Fixpoint Array_find {A} (f : A → completion bool) (l : list A) : completion (option A) :=
match l with
| [] => Normal None
| x :: rest => b ← f x; if b : bool then Normal (Some x) else Array_find f rest
end.

(** [array.filter(f)] *)
Fixpoint Array_filter {A} (f : A → completion bool) (l : list A) : completion (list A) :=
match l with
| [] => Normal []
| x :: rest =>
    b ← f x;
    out ← Array_filter f rest;
    Normal (if b : bool then x :: out else out)
end.

(** [array.map((x, i) => f x i)], the index counted from [i]. *)
Fixpoint Array_map_from {A B} (f : A → nat → completion B) (i : nat) (l : list A)
: completion (list B) :=
match l with
| [] => Normal []
| x :: rest =>
    y ← f x i;
    out ← Array_map_from f (S i) rest;
    Normal (y :: out)
end.

Definition Array_map {A B} (f : A → nat → completion B) (l : list A) : completion (list B) :=
Array_map_from f 0 l.

(** A loop over an array that updates the loop's state [s]:
  [for (const x of l) body] and, with the index, [l.forEach((x, i) => body)]. *)
Fixpoint for_of {A St} (body : A → St → completion St) (l : list A) (s : St) : completion St :=
match l with
| [] => Normal s
| x :: rest => s' ← body x s; for_of body rest s'
end.

Fixpoint forEach_from {A St} (body : A → nat → St → completion St) (i : nat) (l : list A) (s : St)
: completion St :=
match l with
| [] => Normal s
| x :: rest => s' ← body x i s; forEach_from body (S i) rest s'
end.

Definition Array_forEach {A St} (body : A → nat → St → completion St) (l : list A) (s : St)
: completion St :=
forEach_from body 0 l s.

End JS.

Import JS.

(** ** The chat component *)

(** The one function the component takes from the message library:
    [AIMessage.isInstance], the library's own test for an AI message
    object.  Its code is not part of the component; it is a total test on
    values. *)
Class HostLibrary := { AIMessage_isInstance : value → bool }.

(** A message object is referred to by its address in the store. *)
Definition loc := nat.

(** The store gives the fields of the message object at each address. *)
Definition store := loc → list (string * value).

Section Classifier.
Context `{HostLibrary}.

Definition isAIMessage (message : value) : completion bool :=
  if negb (ToBoolean message) || negb (String.eqb (typeof message) "object")
  then Normal false
  else
    type ← Get message "type";
    if strict_eq type (VStr "ai") then Normal true
    else Normal (AIMessage_isInstance message).

Definition isToolMessage (message : value) : completion bool :=
  if negb (ToBoolean message) || negb (String.eqb (typeof message) "object")
  then Normal false
  else
    type ← Get message "type";
    Normal (strict_eq type (VStr "tool")).

Definition isHumanMessage (message : value) : completion bool :=
  if negb (ToBoolean message) || negb (String.eqb (typeof message) "object")
  then Normal false
  else
    type ← Get message "type";
    Normal (strict_eq type (VStr "human")).

(** [v && typeof v === "object" && "text" in v] *)
Definition is_object_with_text (v : value) : completion bool :=
  if ToBoolean v && String.eqb (typeof v) "object"
  then HasProperty "text" v
  else Normal false.

(** The callback of [content.map] in [extractTextContent]. *)
Definition textOfItem (item : value) : completion string :=
  match item with
  | VStr s => Normal s
  | _ =>
      has ← is_object_with_text item;
      if has : bool then text ← Get item "text"; ToString text
      else Normal ""
  end.

Definition extractTextContent (content : value) : completion string :=
  match content with
  | VStr s => Normal s
  | VArr items =>
      parts ← Array_map (λ item _, textOfItem item) items;
      Normal (String.concat "" parts)
  | _ =>
      has ← is_object_with_text content;
      if has : bool then text ← Get content "text"; ToString text
      else ToString (or_else content (VStr ""))
  end.
End Classifier.

(** One tool call of an AI message with the tool message that answers it
    ([toolMessage] is [None] for [undefined]: still pending). *)
Record ToolCallState := {
  toolCall : value;
  toolMessage : option loc;
  aiMessageId : value;
  timestamp : Z
}.

(** The state the transport exposes to the component. *)
Inductive stream_error : Type :=
  | ErrorObject (message : string)   (* an [Error] instance *)
  | OtherValue (v : value).          (* anything else, [undefined] included *)

Record Stream := {
  messages : list loc;
  isLoading : bool;
  error : stream_error
}.

Section Reconciler.
Context `{HostLibrary}.
Variable σ : store.

(** The elements of [v] when it is an array. *)
Definition elements (v : value) : list value :=
  match v with
  | VArr items => items
  | _ => []
  end.

(** Body of the loop that collects the tool messages answering one of
    [toolCalls]. *)
Definition collect_toolMessage (toolCalls : list value) (msg : loc) (toolMessages : list loc)
  : completion (list loc) :=
  tool ← isToolMessage (VObj (σ msg));
  if tool : bool then
    toolCallId ← Get (VObj (σ msg)) "tool_call_id";
    if ToBoolean toolCallId then
      answered ← Array_some (λ tc, id ← Get tc "id"; Normal (strict_eq id toolCallId)) toolCalls;
      if answered : bool then Normal (toolMessages ++ [msg]) else Normal toolMessages
    else Normal toolMessages
  else Normal toolMessages.

(** Body of the loop that builds the states of one AI message. *)
Definition push_toolCallState (toolMessages : list loc) (messageId : value)
    (messageIndex : nat) (toolCall : value) (toolCallStates : list ToolCallState)
  : completion (list ToolCallState) :=
  toolMessage ← Array_find (λ tm,
      tmToolCallId ← Get (VObj (σ tm)) "tool_call_id";
      id ← Get toolCall "id";
      Normal (strict_eq tmToolCallId id)) toolMessages;
  Normal (toolCallStates ++
        [ {| toolCall := toolCall;
             toolMessage := toolMessage;
             aiMessageId := messageId;
             timestamp := Z.of_nat messageIndex * 1000 |} ]).

(** The callback of [stream.messages.forEach]. *)
Definition reconcile_message (all : list loc) (message : loc) (messageIndex : nat)
    (map : gmap loc (list ToolCallState))
  : completion (gmap loc (list ToolCallState)) :=
  ai ← isAIMessage (VObj (σ message));
  if negb ai then Normal map
  else
    let messageAny := VObj (σ message) in
    id ← Get messageAny "id";
    let messageId := or_else id (VStr ("msg-" +:+ pretty messageIndex)) in
    tool_calls ← Get messageAny "tool_calls";
    let toolCalls :=
      if ToBoolean tool_calls && isArray tool_calls then elements tool_calls else [] in
    toolMessages ← for_of (collect_toolMessage toolCalls) all [];
    if (0 <? length toolCalls)%nat then
      toolCallStates ← for_of (push_toolCallState toolMessages messageId messageIndex)
                              toolCalls [];
      Normal (<[message := toolCallStates]> map)
    else Normal map.

(** [calls.sort((a, b) => a.timestamp - b.timestamp)]: the sort is stable,
    elements with equal keys keep their order. *)
Fixpoint insert_by_timestamp (x : ToolCallState) (sorted : list ToolCallState)
  : list ToolCallState :=
  match sorted with
  | [] => [x]
  | y :: rest =>
      if (timestamp x - timestamp y <=? 0)%Z then x :: y :: rest
      else y :: insert_by_timestamp x rest
  end.

Definition sort_by_timestamp (calls : list ToolCallState) : list ToolCallState :=
  foldr insert_by_timestamp [] calls.

(** The memoised reconciliation pass over the whole sequence. *)
Definition toolCallsByMessage (all : list loc) : completion (gmap loc (list ToolCallState)) :=
  map ← Array_forEach (reconcile_message all) all ∅;
  Normal (sort_by_timestamp <$> (map : gmap loc (list ToolCallState))).
End Reconciler.

(** *** The send handler *)

(** [handleSend(messageOverride)], as the list of arguments it passes to
    [stream.submit]. *)
Definition handleSend (apiKey : string) (stream_isLoading : bool)
    (messageOverride : option string) : list value :=
  let messageToSend :=
    match messageOverride with
    | Some s => if String.eqb s "" then "" else s
    | None => ""
    end in
  if String.eqb (trim messageToSend) "" || stream_isLoading then []
  else if String.eqb (trim apiKey) "" then []
  else [ VObj [ ("messages",
                 VArr [ VObj [ ("content", VStr messageToSend); ("type", VStr "human") ] ]) ] ].

(** *** The render pass *)

Inductive justify := justify_end | justify_start.

Record Bubble := {
  alignment : justify;
  bubble_text : string;
  cursor : bool
}.

(** What is rendered for one message of the render sequence, as the
    component describes it: the keys are the values the code passes as
    [key], and what React makes of an element once it is described is not
    part of the component. *)
Record RenderedMessage := {
  item_key : value;
  item_message : loc;
  item_bubble : option Bubble;
  item_toolCalls : list (value * ToolCallState);   (* key and state of each bubble *)
  item_error : option string
}.

Inductive View :=
  | WelcomeScreen
  | Timeline (items : list RenderedMessage) (loadingDots : bool).

Definition errorMessage (e : stream_error) : option string :=
  match e with
  | ErrorObject message => Some message
  | OtherValue (VStr s) => Some s
  | OtherValue _ => None
  end.

(** Truthiness of [errorMessage]. *)
Definition errorMessage_set (e : stream_error) : bool :=
  match errorMessage e with
  | Some s => negb (String.eqb s "")
  | None => false
  end.

Section Render.
Context `{HostLibrary}.
Variable σ : store.

(** [stream.messages.filter((message) => !isToolMessage(message))] *)
Definition renderSequence (all : list loc) : completion (list loc) :=
  Array_filter (λ message, tool ← isToolMessage (VObj (σ message)); Normal (negb tool)) all.

(** [isAIMessage(message) ? toolCallsByMessage.get(message) || [] : []] *)
Definition associatedToolCalls (map : gmap loc (list ToolCallState)) (message : loc)
  : completion (list ToolCallState) :=
  ai ← isAIMessage (VObj (σ message));
  if ai : bool then Normal (default [] (map !! message)) else Normal [].

(** [messageIndex === stream.messages.filter(...).length - 1] *)
Definition is_last_rendered (all : list loc) (messageIndex : nat) : completion bool :=
  shown ← renderSequence all;
  Normal (Z.of_nat messageIndex =? Z.of_nat (length shown) - 1)%Z.

(** The callback of [.map] in the render. *)
Definition render_message (stream : Stream) (map : gmap loc (list ToolCallState))
    (message : loc) (messageIndex : nat) : completion RenderedMessage :=
  calls ← associatedToolCalls map message;
  id ← Get (VObj (σ message)) "id";
  content ← Get (VObj (σ message)) "content";
  text ← extractTextContent content;
  bubble ← (if negb (String.eqb text "") then
              human ← isHumanMessage (VObj (σ message));
              last ← is_last_rendered (messages stream) messageIndex;
              Normal (Some {| alignment := if human : bool then justify_end else justify_start;
                            bubble_text := text;
                            cursor := last && isLoading stream |})
            else Normal None);
  toolCallBubbles ← Array_map (λ toolCallState _,
                        key ← Get (toolCall toolCallState) "id";
                        Normal (key, toolCallState)) calls;
  err ← (if errorMessage_set (error stream) then
           ai ← isAIMessage (VObj (σ message));
           if ai : bool then
             last ← is_last_rendered (messages stream) messageIndex;
             Normal (if last : bool then errorMessage (error stream) else None)
           else Normal None
         else Normal None);
  Normal {| item_key := or_else id (VNum (Z.of_nat messageIndex));
          item_message := message;
          item_bubble := bubble;
          item_toolCalls := toolCallBubbles;
          item_error := err |}.

Definition render (stream : Stream) : completion View :=
  map ← toolCallsByMessage σ (messages stream);
  if (length (messages stream) =? 0)%nat then Normal WelcomeScreen
  else
    shown ← renderSequence (messages stream);
    items ← Array_map (render_message stream map) shown;
    Normal (Timeline items (isLoading stream)).
End Render.

(** ** The agent route *)

Module Route.

(** A promise once it has settled. *)
Inductive settled (A : Type) : Type :=
  | Fulfilled (a : A)
  | Rejected (e : thrown).
Arguments Fulfilled {A} a.
Arguments Rejected {A} e.

(** What a call hands back to its caller: a value, or a promise of one. *)
Inductive returned (A : Type) : Type :=
  | Plain (a : A)
  | Promise (p : settled A).
Arguments Plain {A} a.
Arguments Promise {A} p.

Inductive response_body : Type :=
  | JSON_stringify (v : value)   (* the text [JSON.stringify(v)] *)
  | agent_stream (handle : nat). (* a body produced by the agent *)

Record Response := {
  body : response_body;
  status : Z;
  headers : list (string * string)
}.

(** The request, as far as the handler looks at it: how the promise of
    [request.json()] settles. *)
Record NextRequest := { json : settled value }.

(** [basicAgent] is imported from the agent module; the handler only
    calls it.  A call may throw, return a response, or return a promise. *)
Class Agent := { basicAgent : value → completion (returned Response) }.

(** [await p] *)
Definition await {A} (p : settled A) : completion A :=
  match p with
  | Fulfilled a => Normal a
  | Rejected e => Throw e
  end.

(** [try { block } catch (error) { handler }] *)
Definition try_catch {A} (block : completion A) (handler : thrown → completion A)
  : completion A :=
  match block with
  | Normal a => Normal a
  | Throw error => handler error
  end.

(** How the promise of an [async] function settles, from the completion of
    its body: a thrown value rejects it, a returned value fulfils it, and a
    returned promise passes its own settlement on. *)
Definition async {A} (function_body : completion (returned A)) : settled A :=
  match function_body with
  | Throw e => Rejected e
  | Normal (Plain a) => Fulfilled a
  | Normal (Promise p) => p
  end.

(** [error instanceof Error ? error.message : "Internal server error"] *)
Definition error_text (error : thrown) : string :=
  match error with
  | ErrorInstance _ message => message
  | ThrownValue _ => "Internal server error"
  end.

Definition json_headers : list (string * string) :=
  [ ("Content-Type", "application/json") ].

Definition POST `{Agent} (request : NextRequest) : settled Response :=
  async
    (try_catch
       (body ← await (json request);
        apiKey ← Get body "apiKey";
        if negb (ToBoolean apiKey) then
          Normal (Plain {| body := JSON_stringify (VObj [ ("error", VStr "Missing API key") ]);
                           status := 400;
                           headers := json_headers |})
        else basicAgent body)
       (λ error,
          Normal (Plain {| body := JSON_stringify (VObj [ ("error", VStr (error_text error)) ]);
                           status := 500;
                           headers := json_headers |}))).

End Route.

(** ** Notions used to state the properties *)

(** The value a property read yields where it cannot throw. *)
Definition prop (v : value) (key : string) : value :=
  match Get v key with
  | Normal x => x
  | Throw _ => VUndefined
  end.

Definition is_true (c : completion bool) : bool :=
  match c with
  | Normal b => b
  | Throw _ => false
  end.

Definition nullish (v : value) : bool :=
  match v with
  | VUndefined => true
  | VNull => true
  | _ => false
  end.

(** The text of one content fragment in the words of the specification:
    the fragment itself when it is a string, else its [text] attribute
    coerced to a string, else the empty string. *)
Definition fragment_text (fragment : value) : completion string :=
  match fragment with
  | VStr s => Normal s
  | VObj fields =>
      match own fields "text" with
      | Some text => ToString text
      | None => Normal ""
      end
  | _ => Normal ""
  end.

(** The concatenation, in list order, of the texts of the fragments. *)
Fixpoint concat_fragments (fragments : list value) : completion string :=
  match fragments with
  | [] => Normal ""
  | fragment :: rest =>
      text ← fragment_text fragment;
      texts ← concat_fragments rest;
      Normal (text +:+ texts)
  end.

(** The text of an array, element by element: [null] and [undefined]
    print as the empty string, the elements are separated by commas. *)
Definition element_text (x : value) : completion string :=
  if nullish x then Normal "" else ToString x.

Fixpoint join_commas (l : list value) : completion string :=
  match l with
  | [] => Normal ""
  | x :: rest =>
      sx ← element_text x;
      match rest with
      | [] => Normal sx
      | _ :: _ => tail ← join_commas rest; Normal (sx +:+ "," +:+ tail)
      end
  end.

(** A value that [String] can convert: no object with an own field
    [toString] is reached, neither the value itself nor an element of an
    array that is printed, at any depth. *)
Fixpoint printable (v : value) : bool :=
  match v with
  | VArr items => forallb printable items
  | VObj fields => negb (bool_decide (is_Some (own fields "toString")))
  | _ => true
  end.

(** The values [extractTextContent] hands to [String], in the order in
    which it does: the [text] of each fragment that is an object with one,
    the [text] of a content object that has one, and otherwise, unless the
    content is a string, the content itself (the empty string when it is
    falsy). *)
Definition fragment_coerced (fragment : value) : list value :=
  match fragment with
  | VObj fields =>
      match own fields "text" with
      | Some text => [ text ]
      | None => []
      end
  | _ => []
  end.

Definition coerced (content : value) : list value :=
  match content with
  | VStr _ => []
  | VArr items => items ≫= fragment_coerced
  | VObj fields =>
      match own fields "text" with
      | Some text => [ text ]
      | None => [ content ]
      end
  | _ => [ or_else content (VStr "") ]
  end.

(** The text of the content can be extracted: [String] can convert every
    value the extraction hands to it. *)
Definition extractable (content : value) : bool :=
  forallb printable (coerced content).

(** The exception of a conversion that fails. *)
Definition not_convertible : thrown :=
  TypeError "Cannot convert object to primitive value".

(** A value carries none of the three role tags. *)
Definition untagged (v : value) : Prop :=
  prop v "type" ≠ VStr "ai" ∧ prop v "type" ≠ VStr "tool" ∧ prop v "type" ≠ VStr "human".

(** A host library none of whose classes the messages instantiate: every
    message is plain parsed data. *)
Definition plain_data : HostLibrary := {| AIMessage_isInstance := λ _, false |}.

Section Notions.
Context `{HostLibrary}.
Variable σ : store.

(** The tool-call list the reconciler reads off a message: the elements of
    its [tool_calls] field when that is an array, no tool call otherwise. *)
Definition toolCalls_of (message : loc) : list value :=
  elements (prop (VObj (σ message)) "tool_calls").

(** A message owns tool calls: it classifies as AI and its [tool_calls]
    field is an array with at least one element. *)
Definition owns_toolCalls (message : loc) : Prop :=
  isAIMessage (VObj (σ message)) = Normal true ∧
  ∃ items, Get (VObj (σ message)) "tool_calls" = Normal (VArr items) ∧ items ≠ [].

(** The sequence respects the declared type of tool-call lists
    ([ToolCall[]]): no element of an AI message's list is [null] or
    [undefined]. *)
Definition toolCalls_typed (all : list loc) : Prop :=
  Forall (λ message,
            isAIMessage (VObj (σ message)) = Normal true →
            Forall (λ tc, nullish tc = false) (toolCalls_of message)) all.

(** The text of every message the render shows can be extracted: the
    content of each message that is no tool message is [extractable]. *)
Definition contents_extractable (all : list loc) : Prop :=
  Forall (λ message,
            isToolMessage (VObj (σ message)) = Normal false →
            extractable (prop (VObj (σ message)) "content") = true) all.

(** A tool message answers the tool-call id [id]: it classifies as a tool
    message and its [tool_call_id] is truthy and strictly equal to [id]. *)
Definition answers (id : value) (msg : loc) : bool :=
  is_true (isToolMessage (VObj (σ msg)))
  && ToBoolean (prop (VObj (σ msg)) "tool_call_id")
  && strict_eq (prop (VObj (σ msg)) "tool_call_id") id.

(** The test of the collecting loop: a tool message whose truthy
    [tool_call_id] is the id of one of [toolCalls]. *)
Definition collected (toolCalls : list value) (msg : loc) : bool :=
  is_true (isToolMessage (VObj (σ msg)))
  && ToBoolean (prop (VObj (σ msg)) "tool_call_id")
  && existsb (λ tc, strict_eq (prop tc "id") (prop (VObj (σ msg)) "tool_call_id")) toolCalls.

(** [owns_toolCalls] as the test the pass performs. *)
Definition owns_toolCalls_b (message : loc) : bool :=
  is_true (isAIMessage (VObj (σ message))) && (0 <? length (toolCalls_of message))%nat.

(** The first message of the sequence that answers [id]. *)
Definition first_answer (all : list loc) (id : value) : option loc :=
  List.find (answers id) all.

(** The reading without the truthiness test: the first tool-role message
    of the sequence whose [tool_call_id] equals [id]. *)
Definition first_tool_message_with_id (all : list loc) (id : value) : option loc :=
  List.find (λ msg, is_true (isToolMessage (VObj (σ msg)))
                    && strict_eq (prop (VObj (σ msg)) "tool_call_id") id) all.

(** The states the pass builds for [message] when it meets it at
    [messageIndex]: one per tool call, in the order of the list. *)
Definition states_at (all : list loc) (messageIndex : nat) (message : loc)
  : list ToolCallState :=
  (λ tc, {| toolCall := tc;
            toolMessage := first_answer all (prop tc "id");
            aiMessageId := or_else (prop (VObj (σ message)) "id")
                                   (VStr ("msg-" +:+ pretty messageIndex));
            timestamp := Z.of_nat messageIndex * 1000 |}) <$> toolCalls_of message.

(** [j] is the last position of the sequence that holds [message]. *)
Definition last_position (all : list loc) (message : loc) (j : nat) : Prop :=
  all !! j = Some message ∧ ∀ k, j < k → all !! k ≠ Some message.

(** The render sequence in the words of the specification: the input with
    the tool-role messages dropped and every other message kept in place. *)
Inductive drops_tool_messages : list loc → list loc → Prop :=
  | drops_nil : drops_tool_messages [] []
  | drops_tool m all shown :
      isToolMessage (VObj (σ m)) = Normal true →
      drops_tool_messages all shown →
      drops_tool_messages (m :: all) shown
  | drops_keep m all shown :
      isToolMessage (VObj (σ m)) = Normal false →
      drops_tool_messages all shown →
      drops_tool_messages (m :: all) (m :: shown).
End Notions.

(** The items a view shows (the welcome screen shows none). *)
Definition rendered_items (view : View) : list RenderedMessage :=
  match view with
  | WelcomeScreen => []
  | Timeline items _ => items
  end.

#[export] Instance completion_true_dec (c : completion bool) : Decision (c = Normal true).
Proof.
  refine (match c with
          | Normal true => left _
          | Normal false => right _
          | Throw _ => right _
          end); congruence.
Defined.

#[export] Instance nullish_false_dec (v : value) : Decision (nullish v = false).
Proof. apply _. Defined.

#[export] Instance toolCalls_typed_dec `{HostLibrary} (σ : store) (all : list loc) :
  Decision (toolCalls_typed σ all).
Proof. unfold toolCalls_typed. apply _. Defined.

#[export] Instance completion_false_dec (c : completion bool) : Decision (c = Normal false).
Proof.
  refine (match c with
          | Normal false => left _
          | Normal true => right _
          | Throw _ => right _
          end); congruence.
Defined.

#[export] Instance contents_extractable_dec (σ : store) (all : list loc) :
  Decision (contents_extractable σ all).
Proof. unfold contents_extractable. apply _. Defined.

(** ** Sample sessions *)

(** A human message, an AI message that calls tool [t1], and the tool
    message that answers the call. *)
Definition search_session : store := λ l,
  match l with
  | 0 => [ ("type", VStr "human"); ("content", VStr "hi") ]
  | 1 => [ ("type", VStr "ai"); ("content", VStr "");
           ("tool_calls", VArr [ VObj [ ("id", VStr "t1"); ("name", VStr "search") ] ]) ]
  | 2 => [ ("type", VStr "tool"); ("tool_call_id", VStr "t1"); ("content", VStr "42") ]
  | _ => []
  end.

(** The state of call [t1] once the pass over the three messages has
    matched it to the tool message at address 2. *)
Definition t1_completed : ToolCallState :=
  {| toolCall := VObj [ ("id", VStr "t1"); ("name", VStr "search") ];
     toolMessage := Some 2;
     aiMessageId := VStr "msg-1";
     timestamp := 1000 |}.

(** An AI message whose tool call has the empty string for id, and a tool
    message whose [tool_call_id] is the same empty string. *)
Definition empty_id_session : store := λ l,
  match l with
  | 0 => [ ("type", VStr "ai"); ("content", VStr "");
           ("tool_calls", VArr [ VObj [ ("id", VStr ""); ("name", VStr "search") ] ]) ]
  | 1 => [ ("type", VStr "tool"); ("tool_call_id", VStr ""); ("content", VStr "42") ]
  | _ => []
  end.

(** A sequence outside the declared types: the AI message's tool-call list
    holds [null], and a tool message carries an id. *)
Definition null_call_session : store := λ l,
  match l with
  | 0 => [ ("type", VStr "ai"); ("tool_calls", VArr [ VNull ]) ]
  | 1 => [ ("type", VStr "tool"); ("tool_call_id", VStr "t1") ]
  | _ => []
  end.

(** The three messages on screen while the transport reports an error. *)
Definition failed_stream : Stream :=
  {| messages := [0; 1; 2]; isLoading := false; error := ErrorObject "boom" |}.

(** The human message and the AI message on screen while the transport
    reports an [Error] whose message is empty. *)
Definition empty_error_stream : Stream :=
  {| messages := [0; 1]; isLoading := false; error := ErrorObject "" |}.

(** An agent whose call returns a promise that rejects, and one whose call
    returns a promise of a streaming response. *)
Definition rejecting_agent : Route.Agent :=
  {| Route.basicAgent := λ _,
       Normal (Route.Promise (Route.Rejected (ErrorInstance "Error" "model request failed"))) |}.

Definition streaming_agent : Route.Agent :=
  {| Route.basicAgent := λ _,
       Normal (Route.Promise (Route.Fulfilled
         {| Route.body := Route.agent_stream 0;
            Route.status := 200;
            Route.headers := [ ("Content-Type", "text/event-stream") ] |})) |}.

(** ** The request hook of the transport *)

Module Transport.

(** A request body: a text, known by what [JSON.parse] makes of it.
    [JSON_text v] is the text [JSON.stringify(v)], which parses back to [v];
    any other text makes [JSON.parse] throw. *)
Inductive text : Type :=
  | JSON_text (v : value)
  | other_text (error : thrown).

Definition JSON_parse (t : text) : completion value :=
  match t with
  | JSON_text v => Normal v
  | other_text error => Throw error
  end.

Definition JSON_stringify (v : value) : text := JSON_text v.

(** The fields of [RequestInit] the hook names, and the others. *)
Record RequestInit := {
  method : value;
  headers : value;
  body : text;
  others : list (string * value)
}.

(** [{...v}]: the own enumerable properties of [v].  An array spreads to its
    elements under their indices, a string to its characters, any other
    primitive to nothing. *)
Definition spread (v : value) : list (string * value) :=
  match v with
  | VObj fields => fields
  | VArr items => imap (λ i x, (pretty i, x)) items
  | VStr s => imap (λ i c, (pretty i, VStr (String c EmptyString))) (list_ascii_of_string s)
  | _ => []
  end.

(** [{...fields, key: v}]: a property written after a spread replaces the
    spread one in place, or is added last. *)
Fixpoint set_field (fields : list (string * value)) (key : string) (v : value)
  : list (string * value) :=
  match fields with
  | [] => [ (key, v) ]
  | (k, x) :: rest =>
      if String.eqb k key then (k, v) :: rest else (k, x) :: set_field rest key v
  end.

(** [onRequest(url, init)] of the transport the component creates for
    [apiKey]; an exception stands for the rejection of the hook's promise. *)
Definition onRequest (apiKeyValue : string) (url : string) (init : RequestInit)
  : completion RequestInit :=
  parsed ← JSON_parse (body init);
  let customBody :=
    JSON_stringify
      (VObj (set_field (spread (or_else parsed (VObj []))) "apiKey" (VStr apiKeyValue))) in
  Normal {| method := VStr "POST";
            headers := VObj (set_field (spread (headers init))
                                       "Content-Type" (VStr "application/json"));
            body := customBody;
            others := others init |}.

End Transport.

(** ** The page *)

(** What [Home] shows for the key it holds in its state: the key form, or
    the chat with that key. *)
Inductive HomeView : Type :=
  | ApiKeyInput (apiKey : string)
  | ChatInterface (apiKey : string).

Definition Home (apiKey : string) : HomeView :=
  if String.eqb (trim apiKey) "" then ApiKeyInput apiKey else ChatInterface apiKey.

(** ** Further notions *)

(** A string holds a character that [trim] does not strip. *)
Definition non_blank (s : string) : Prop :=
  ∃ c, c ∈ list_ascii_of_string s ∧ is_white_space c = false.

(** The text the render extracts from a message (the empty string where
    the extraction fails). *)
Definition text_of (σ : store) (message : loc) : string :=
  match extractTextContent (prop (VObj (σ message)) "content") with
  | Normal s => s
  | Throw _ => ""
  end.

(** Two AI messages whose tool calls carry the same id, each followed by
    a tool message with that id. *)
Definition collision_session : store := λ l,
  match l with
  | 0 => [ ("type", VStr "ai"); ("tool_calls", VArr [ VObj [ ("id", VStr "t1") ] ]) ]
  | 1 => [ ("type", VStr "tool"); ("tool_call_id", VStr "t1"); ("content", VStr "first") ]
  | 2 => [ ("type", VStr "ai"); ("tool_calls", VArr [ VObj [ ("id", VStr "t1") ] ]) ]
  | 3 => [ ("type", VStr "tool"); ("tool_call_id", VStr "t1"); ("content", VStr "second") ]
  | _ => []
  end.

(** The state both of these calls end in. *)
Definition t1_collided (messageIndex : nat) : ToolCallState :=
  {| toolCall := VObj [ ("id", VStr "t1") ];
     toolMessage := Some 1;
     aiMessageId := VStr ("msg-" +:+ pretty messageIndex);
     timestamp := Z.of_nat messageIndex * 1000 |}.

(** The state of call [t1] while no tool message has arrived. *)
Definition t1_pending : ToolCallState :=
  {| toolCall := VObj [ ("id", VStr "t1"); ("name", VStr "search") ];
     toolMessage := None;
     aiMessageId := VStr "msg-1";
     timestamp := 1000 |}.

(** The three messages while the stream is loading and the transport
    reports, as its error, a plain object rather than an [Error]. *)
Definition loading_stream : Stream :=
  {| messages := [0; 1; 2];
     isLoading := true;
     error := OtherValue (VObj [ ("message", VStr "boom") ]) |}.

(** A human message, and an AI message whose content is an object that
    holds a field [toString]. *)
Definition unprintable_session : store := λ l,
  match l with
  | 0 => [ ("type", VStr "human"); ("content", VStr "hi") ]
  | 1 => [ ("type", VStr "ai"); ("content", VObj [ ("toString", VNum 1) ]) ]
  | _ => []
  end.

(** A request whose parsed body holds no key. *)
Definition keyless_request : Route.NextRequest :=
  {| Route.json := Route.Fulfilled (VObj [ ("messages", VArr []) ]) |}.

(** A request of the stream transport before the hook has run. *)
Definition plain_init : Transport.RequestInit :=
  {| Transport.method := VUndefined;
     Transport.headers := VObj [ ("Accept", VStr "text/event-stream") ];
     Transport.body :=
       Transport.JSON_text (VObj [ ("input", VObj [ ("messages", VArr []) ]);
                                   ("apiKey", VStr "stale") ]);
     Transport.others := [ ("signal", VObj []) ] |}.

(** ** Properties of the value model *)

Lemma strict_eq_sym (a b : value) : strict_eq a b = strict_eq b a.
Proof.
  destruct a, b; simpl; try reflexivity.
  - destruct b, b0; reflexivity.
  - apply Z.eqb_sym.
  - apply String.eqb_sym.
Qed.

Lemma strict_eq_str (v : value) (s : string) :
  strict_eq v (VStr s) = true ↔ v = VStr s.
Proof.
  split.
  - destruct v; simpl; try discriminate.
    intros E. apply String.eqb_eq in E. by subst.
  - intros ->. simpl. apply String.eqb_refl.
Qed.

Lemma Get_object (fields : list (string * value)) (key : string) :
  Get (VObj fields) key = Normal (prop (VObj fields) key).
Proof. reflexivity. Qed.

Lemma Get_not_nullish (v : value) (key : string) :
  nullish v = false → Get v key = Normal (prop v key).
Proof.
  destruct v; try discriminate; intros _; unfold prop, Get; try reflexivity;
    by destruct (String.eqb key "length").
Qed.

Lemma elements_of_tool_calls (v : value) :
  (if ToBoolean v && isArray v then elements v else []) = elements v.
Proof. destruct v; simpl; try reflexivity; by rewrite andb_false_r. Qed.

(** *** Strings *)

Lemma append_empty_r (x : string) : x +:+ "" = x.
Proof.
  induction x as [|c x IH]; [reflexivity|].
  change (String c (x +:+ "") = String c x). by rewrite IH.
Qed.

Lemma append_assoc (x y z : string) : (x +:+ y) +:+ z = x +:+ (y +:+ z).
Proof.
  induction x as [|c x IH]; [reflexivity|].
  change (String c ((x +:+ y) +:+ z) = String c (x +:+ (y +:+ z))). by rewrite IH.
Qed.

Lemma concat_empty_cons (x : string) (l : list string) :
  String.concat "" (x :: l) = x +:+ String.concat "" l.
Proof.
  destruct l as [|y l]; cbn [String.concat]; [by rewrite append_empty_r|reflexivity].
Qed.

Lemma concat_empty_app (l1 l2 : list string) :
  String.concat "" (l1 ++ l2) = String.concat "" l1 +:+ String.concat "" l2.
Proof.
  induction l1 as [|x l1 IH]; [done|].
  by rewrite <- app_comm_cons, !concat_empty_cons, IH, append_assoc.
Qed.

(** *** Printing numbers *)

Lemma to_Number_safe (n : Z) : (n < 2 ^ 53)%Z → to_Number n = n.
Proof. intros Hn. unfold to_Number. by rewrite (proj2 (Z.ltb_lt _ _) Hn). Qed.

Lemma to_Number_large (n : Z) : (2 ^ 53 ≤ n)%Z → (2 ^ 53 ≤ to_Number n)%Z.
Proof.
  intros Hn. unfold to_Number. rewrite (proj2 (Z.ltb_ge _ _) Hn).
  assert (Hlog : (53 ≤ Z.log2 n)%Z) by (apply (Z.log2_le_pow2 n 53); lia).
  set (shift := (Z.log2 n - 52)%Z).
  assert (Hshift : (1 ≤ shift)%Z) by (subst shift; lia).
  assert (Hpow : (2 ≤ 2 ^ shift)%Z).
  { change 2%Z with (2 ^ 1)%Z at 1. apply Z.pow_le_mono_r; lia. }
  assert (Hq : (2 ^ 52 ≤ Z.shiftr n shift)%Z).
  { rewrite Z.shiftr_div_pow2 by lia. apply Z.div_le_lower_bound; [lia|].
    rewrite Z.mul_comm, <- Z.pow_add_r by lia.
    replace (52 + shift)%Z with (Z.log2 n) by (subst shift; lia).
    apply Z.log2_spec. lia. }
  cbv zeta. rewrite Z.shiftl_mul_pow2 by lia.
  destruct (_ || _); nia.
Qed.

(** Below 2^53 every integer is a Number value of its own, so no shorter
    integer denotes it. *)
Lemma shortest_from_safe (x : Z) (e : nat) :
  (0 < x < 2 ^ 53)%Z → shortest_from x e = x.
Proof.
  intros Hx. induction e as [|e IH]; cbn [shortest_from].
  all: set (p := (10 ^ Z.of_nat _)%Z).
  all: assert (Hp : (0 < p)%Z) by (subst p; apply Z.pow_pos_nonneg; lia).
  all: pose proof (Z.mul_div_le x p Hp) as Hlo.
  all: pose proof (Z.mod_pos_bound x p Hp) as Hmod.
  all: pose proof (Z.div_mod x p ltac:(lia)) as Hdiv.
  all: assert (Hlo' : (x / p * p ≤ x)%Z) by lia.
  all: assert (Hhi : (to_Number (x / p * p + p) =? x)%Z = false)
         by (apply Z.eqb_neq;
             destruct (Z.lt_ge_cases (x / p * p + p) (2 ^ 53)) as [Hs|Hl];
             [rewrite to_Number_safe by done; lia
             |pose proof (to_Number_large _ Hl); lia]).
  all: rewrite Hhi, andb_false_r, to_Number_safe by lia; cbn [negb orb].
  all: rewrite andb_true_r.
  all: destruct (Z.ltb_spec 0 (x / p * p)), (Z.eqb_spec (x / p * p) x); cbn [andb]; try done.
Qed.

(** An integer of magnitude below 2^53 prints as its decimal digits. *)
Lemma Number_toString_safe (n : Z) :
  (- 2 ^ 53 < n < 2 ^ 53)%Z → Number_toString n = pretty n.
Proof.
  intros Hn.
  assert (Hpos : ∀ x, (0 < x < 2 ^ 53)%Z → Number_toString_pos x = pretty x).
  { intros x Hx. unfold Number_toString_pos. cbv zeta.
    rewrite to_Number_safe, shortest_from_safe by lia.
    rewrite (proj2 (Z.leb_gt (2 ^ 1024) x)) by lia.
    by rewrite (proj2 (Z.ltb_lt x (10 ^ 21)) ltac:(lia)). }
  destruct n as [|p|p]; [done|apply Hpos; lia|].
  cbn [Number_toString]. rewrite Hpos by lia. reflexivity.
Qed.

(** *** Conversion to a string *)

Lemma value_nested_ind (P : value → Prop) :
  P VUndefined → P VNull → (∀ b, P (VBool b)) → (∀ n, P (VNum n)) → (∀ s, P (VStr s)) →
  (∀ items, Forall P items → P (VArr items)) →
  (∀ fields, P (VObj fields)) →
  ∀ v, P v.
Proof.
  intros Hu Hn Hb Hnum Hs Ha Ho. fix IH 1.
  intros [| |b|n|s|items|fields];
    [exact Hu|exact Hn|apply Hb|apply Hnum|apply Hs| |apply Ho].
  apply Ha. induction items as [|x l IHl]; constructor; [apply IH|apply IHl].
Qed.

Lemma ToString_array (items : list value) : ToString (VArr items) = join_commas items.
Proof.
  induction items as [|x rest IH]; [reflexivity|].
  cbn [join_commas]. rewrite <- IH. by destruct x.
Qed.

(** [String] converts exactly the printable values, and fails on the
    others with the one [TypeError]. *)
Lemma ToString_outcome (v : value) :
  (printable v = true → ∃ s, ToString v = Normal s) ∧
  (printable v = false → ToString v = Throw not_convertible).
Proof.
  induction v as [| |b|n|s|items IH|fields] using value_nested_ind;
    try (split; [by eexists|discriminate]).
  - split; [by destruct b; eexists|discriminate].
  - rewrite ToString_array. cbn [printable].
    induction IH as [|x rest [Hx Hx'] _ [Hrest Hrest']]; [split; [by eexists|discriminate]|].
    cbn [forallb join_commas]. unfold element_text.
    destruct (printable x) eqn:Ex.
    + destruct (Hx eq_refl) as [sx Hsx].
      assert (Hel : ∃ t, (if nullish x then Normal "" else ToString x) = Normal t)
        by (destruct (nullish x); by eexists).
      destruct Hel as [t ->]. cbn [mbind completion_bind andb].
      destruct rest as [|y rest]; [split; [by eexists|discriminate]|].
      split.
      * intros Hp. destruct (Hrest Hp) as [tail ->]. by eexists.
      * intros Hp. by rewrite (Hrest' Hp).
    + cbn [andb]. split; [discriminate|]. intros _.
      assert (Hnn : nullish x = false) by (by destruct x).
      by rewrite Hnn, (Hx' eq_refl).
  - cbn [printable ToString]. destruct (own fields "toString"); cbn.
    + split; [discriminate|done].
    + split; [by eexists|discriminate].
Qed.

(** ** The array operations on callbacks that do not throw *)

Section ArrayOperations.
Context {A : Type}.

Lemma Array_some_pure (f : A → completion bool) (p : A → bool) (l : list A) :
  Forall (λ x, f x = Normal (p x)) l →
  Array_some f l = Normal (existsb p l).
Proof.
  induction 1 as [|x l Hx _ IH]; simpl; [done|].
  rewrite Hx. simpl. destruct (p x); [done|]. exact IH.
Qed.

Lemma Array_find_pure (f : A → completion bool) (p : A → bool) (l : list A) :
  Forall (λ x, f x = Normal (p x)) l →
  Array_find f l = Normal (List.find p l).
Proof.
  induction 1 as [|x l Hx _ IH]; simpl; [done|].
  rewrite Hx. simpl. destruct (p x); [done|]. exact IH.
Qed.

Lemma Array_filter_pure (f : A → completion bool) (p : A → bool) (l : list A) :
  Forall (λ x, f x = Normal (p x)) l →
  Array_filter f l = Normal (List.filter p l).
Proof.
  induction 1 as [|x l Hx _ IH]; simpl; [done|].
  rewrite Hx, IH. simpl. by destruct (p x).
Qed.

Lemma Array_map_from_pure {B} (f : A → nat → completion B) (g : A → nat → B)
    (l : list A) (i : nat) :
  (∀ k x, l !! k = Some x → f x (i + k) = Normal (g x (i + k))) →
  Array_map_from f i l = Normal (imap (λ k x, g x (i + k)) l).
Proof.
  revert i. induction l as [|x l IH]; intros i Hf; simpl; [done|].
  pose proof (Hf 0 x eq_refl) as H0. rewrite Nat.add_0_r in H0. rewrite H0. simpl.
  rewrite (IH (S i)).
  - simpl. rewrite Nat.add_0_r. do 2 f_equal.
    apply imap_ext. intros k y _. simpl. f_equal. lia.
  - intros k y Hk. replace (S i + k) with (i + S k) by lia. by apply Hf.
Qed.

(** A loop whose body appends the element when [p] holds is a filter. *)
Lemma for_of_push_filter (body : A → list A → completion (list A)) (p : A → bool)
    (l acc : list A) :
  Forall (λ x, ∀ acc, body x acc = Normal (if p x then acc ++ [x] else acc)) l →
  for_of body l acc = Normal (acc ++ List.filter p l).
Proof.
  intros Hl. revert acc. induction Hl as [|x l Hx _ IH]; intros acc; simpl.
  - by rewrite app_nil_r.
  - rewrite Hx. simpl. destruct (p x).
    + rewrite IH. by rewrite <- app_assoc.
    + apply IH.
Qed.

(** A loop whose body appends [g x] is a map. *)
Lemma for_of_push_map {B} (body : A → list B → completion (list B)) (g : A → B)
    (l : list A) (acc : list B) :
  Forall (λ x, ∀ acc, body x acc = Normal (acc ++ [g x])) l →
  for_of body l acc = Normal (acc ++ (g <$> l)).
Proof.
  intros Hl. revert acc. induction Hl as [|x l Hx _ IH]; intros acc; simpl.
  - by rewrite app_nil_r.
  - rewrite Hx. simpl. rewrite IH. by rewrite <- app_assoc.
Qed.

Lemma find_filter (p q : A → bool) (l : list A) :
  List.find q (List.filter p l) = List.find (λ x, p x && q x) l.
Proof.
  induction l as [|x l IH]; simpl; [done|].
  destruct (p x); simpl; [|exact IH].
  destruct (q x); [done|exact IH].
Qed.

Lemma find_ext (p q : A → bool) (l : list A) :
  (∀ x, x ∈ l → p x = q x) → List.find p l = List.find q l.
Proof.
  induction l as [|x l IH]; intros Hpq; simpl; [done|].
  rewrite <- (Hpq x) by apply list_elem_of_here.
  destruct (p x); [done|]. apply IH. intros y Hy. apply Hpq. by apply list_elem_of_further.
Qed.

Lemma find_app_Some (p : A → bool) (l extra : list A) (x : A) :
  List.find p l = Some x → List.find p (l ++ extra) = Some x.
Proof.
  induction l as [|y l IH]; simpl; [done|].
  destruct (p y); [done|exact IH].
Qed.

Lemma forEach_from_app {St} (body : A → nat → St → completion St)
    (l1 l2 : list A) (i : nat) (s : St) :
  forEach_from body i (l1 ++ l2) s =
  s' ← forEach_from body i l1 s; forEach_from body (i + length l1) l2 s'.
Proof.
  revert i s. induction l1 as [|x l1 IH]; intros i s; simpl.
  - by rewrite Nat.add_0_r.
  - destruct (body x i s) as [s1|e]; simpl; [|done].
    rewrite IH. by replace (S i + length l1) with (i + S (length l1)) by lia.
Qed.
End ArrayOperations.

(** ** The message classifier *)

Section ClassifierProperties.
Context `{HostLibrary}.

Lemma isAIMessage_object (fields : list (string * value)) :
  isAIMessage (VObj fields) =
  Normal (strict_eq (prop (VObj fields) "type") (VStr "ai") || AIMessage_isInstance (VObj fields)).
Proof.
  unfold isAIMessage, prop. simpl.
  by destruct (strict_eq _ _).
Qed.

Lemma isToolMessage_object (fields : list (string * value)) :
  isToolMessage (VObj fields) = Normal (strict_eq (prop (VObj fields) "type") (VStr "tool")).
Proof. reflexivity. Qed.

Lemma isHumanMessage_object (fields : list (string * value)) :
  isHumanMessage (VObj fields) = Normal (strict_eq (prop (VObj fields) "type") (VStr "human")).
Proof. reflexivity. Qed.

Lemma isAIMessage_returns (v : value) : ∃ b, isAIMessage v = Normal b.
Proof.
  destruct v; try (by eexists).
  - unfold isAIMessage. simpl. by destruct b; eexists.
  - unfold isAIMessage. simpl. by destruct (negb (n =? 0)%Z); eexists.
  - unfold isAIMessage. simpl. rewrite orb_true_r. by eexists.
  - rewrite isAIMessage_object. by eexists.
Qed.

Lemma isToolMessage_returns (v : value) : ∃ b, isToolMessage v = Normal b.
Proof.
  destruct v; try (by eexists).
  - unfold isToolMessage. simpl. by destruct b; eexists.
  - unfold isToolMessage. simpl. by destruct (negb (n =? 0)%Z); eexists.
  - unfold isToolMessage. simpl. rewrite orb_true_r. by eexists.
Qed.

Lemma isHumanMessage_returns (v : value) : ∃ b, isHumanMessage v = Normal b.
Proof.
  destruct v; try (by eexists).
  - unfold isHumanMessage. simpl. by destruct b; eexists.
  - unfold isHumanMessage. simpl. by destruct (negb (n =? 0)%Z); eexists.
  - unfold isHumanMessage. simpl. rewrite orb_true_r. by eexists.
Qed.

(** The callback of [content.map] computes the fragment text of the
    specification. *)
Lemma textOfItem_fragment_text (item : value) :
  textOfItem item = fragment_text item.
Proof.
  destruct item; try reflexivity.
  - by destruct b.
  - unfold textOfItem, is_object_with_text. simpl. by destruct (negb (n =? 0)%Z).
  - unfold textOfItem, is_object_with_text, fragment_text, HasProperty, Get. simpl.
    by destruct (own fields "text").
Qed.

Lemma map_textOfItem (items : list value) (i : nat) :
  (parts ← Array_map_from (λ item _, textOfItem item) i items;
   Normal (String.concat "" parts)) = concat_fragments items.
Proof.
  revert i. induction items as [|x items IH]; intros i; [reflexivity|].
  cbn [Array_map_from concat_fragments]. rewrite textOfItem_fragment_text.
  destruct (fragment_text x) as [t|e]; [|reflexivity]. cbn [mbind completion_bind].
  rewrite <- (IH (S i)).
  destruct (Array_map_from _ (S i) items) as [out|e]; [|reflexivity].
  cbn [mbind completion_bind]. by rewrite concat_empty_cons.
Qed.

Lemma extractTextContent_array (items : list value) :
  extractTextContent (VArr items) = concat_fragments items.
Proof. apply map_textOfItem. Qed.

Lemma extractTextContent_object (fields : list (string * value)) :
  extractTextContent (VObj fields) =
  match own fields "text" with
  | Some text => ToString text
  | None => ToString (VObj fields)
  end.
Proof.
  unfold extractTextContent, is_object_with_text, HasProperty, Get. simpl.
  by destruct (own fields "text").
Qed.

Lemma fragment_text_outcome (fragment : value) :
  (forallb printable (fragment_coerced fragment) = true →
     ∃ s, fragment_text fragment = Normal s) ∧
  (forallb printable (fragment_coerced fragment) = false →
     fragment_text fragment = Throw not_convertible).
Proof.
  destruct fragment as [| |b|n|s|items|fields]; try (split; [by eexists|discriminate]).
  cbn [fragment_coerced fragment_text].
  destruct (own fields "text") as [text|]; [|split; [by eexists|discriminate]].
  cbn [forallb]. rewrite andb_true_r. apply ToString_outcome.
Qed.

Lemma concat_fragments_outcome (fragments : list value) :
  (forallb printable (fragments ≫= fragment_coerced) = true →
     ∃ s, concat_fragments fragments = Normal s) ∧
  (forallb printable (fragments ≫= fragment_coerced) = false →
     concat_fragments fragments = Throw not_convertible).
Proof.
  induction fragments as [|x rest [IH IH']]; [split; [by eexists|discriminate]|].
  rewrite bind_cons, forallb_app. cbn [concat_fragments].
  destruct (fragment_text_outcome x) as [Hx Hx'].
  destruct (forallb printable (fragment_coerced x)); cbn [andb].
  - destruct (Hx eq_refl) as [t ->]. cbn [mbind completion_bind]. split.
    + intros Hp. destruct (IH Hp) as [ts ->]. by eexists.
    + intros Hp. by rewrite (IH' Hp).
  - split; [discriminate|]. intros _. by rewrite (Hx' eq_refl).
Qed.

(** The extraction returns exactly on the extractable contents, and fails
    on the others with the [TypeError] of the conversion. *)
Lemma extractTextContent_outcome (content : value) :
  (extractable content = true → ∃ s, extractTextContent content = Normal s) ∧
  (extractable content = false → extractTextContent content = Throw not_convertible).
Proof.
  unfold extractable.
  destruct content as [| |b|n|s|items|fields]; try (split; [by eexists|discriminate]).
  - destruct b; (split; [by eexists|discriminate]).
  - unfold extractTextContent, is_object_with_text, coerced, or_else.
    cbn [ToBoolean andb]. destruct (negb (n =? 0)%Z); (split; [by eexists|discriminate]).
  - rewrite extractTextContent_array. apply concat_fragments_outcome.
  - rewrite extractTextContent_object. cbn [coerced].
    destruct (own fields "text") as [text|]; cbn [forallb]; rewrite andb_true_r;
      apply ToString_outcome.
Qed.

Lemma extractTextContent_extractable (content : value) :
  extractable content = true →
  extractTextContent content
  = Normal (match extractTextContent content with Normal s => s | Throw _ => "" end).
Proof.
  intros Hc. by destruct (proj1 (extractTextContent_outcome content) Hc) as [s ->].
Qed.
End ClassifierProperties.

(** ** The reconciliation pass *)

Lemma bind_Normal {A B} (a : A) (f : A → completion B) : (Normal a ≫= f) = f a.
Proof. reflexivity. Qed.

#[local] Arguments prop : simpl never.
#[local] Arguments is_true : simpl never.
#[local] Arguments Get : simpl never.
#[local] Arguments isToolMessage : simpl never.
#[local] Arguments isAIMessage : simpl never.
#[local] Arguments isHumanMessage : simpl never.

Section ReconcilerProperties.
Context `{HostLibrary}.
Variable σ : store.

Lemma isAIMessage_stored (m : loc) :
  isAIMessage (VObj (σ m)) = Normal (is_true (isAIMessage (VObj (σ m)))).
Proof. by rewrite isAIMessage_object. Qed.

Lemma isToolMessage_stored (m : loc) :
  isToolMessage (VObj (σ m)) = Normal (is_true (isToolMessage (VObj (σ m)))).
Proof. reflexivity. Qed.

Lemma owns_toolCalls_reflect (m : loc) :
  owns_toolCalls σ m ↔ owns_toolCalls_b σ m = true.
Proof.
  unfold owns_toolCalls, owns_toolCalls_b, toolCalls_of.
  pose proof (isAIMessage_stored m) as Hs.
  destruct (isAIMessage (VObj (σ m))) as [b|e]; [clear Hs|discriminate].
  rewrite Get_object, andb_true_iff. unfold is_true. split.
  - intros [Hai (items & Hg & Hne)]. split; [by inversion Hai|].
    inversion Hg as [Hp]. rewrite Hp. cbn. by destruct items.
  - intros [Hai Hlen]. split; [by rewrite Hai|].
    destruct (prop (VObj (σ m)) "tool_calls") as [| | | | |items|];
      cbn in Hlen; try discriminate.
    exists items. split; [done|]. by destruct items.
Qed.

Lemma collect_toolMessage_typed (toolCalls : list value) (msg : loc) (acc : list loc) :
  Forall (λ tc, nullish tc = false) toolCalls →
  collect_toolMessage σ toolCalls msg acc =
  Normal (if collected σ toolCalls msg then acc ++ [msg] else acc).
Proof.
  intros Htyped. unfold collect_toolMessage, collected.
  rewrite isToolMessage_stored, bind_Normal.
  destruct (is_true (isToolMessage (VObj (σ msg)))); cbn; [|done].
  rewrite Get_object, bind_Normal.
  destruct (ToBoolean (prop (VObj (σ msg)) "tool_call_id")); cbn; [|done].
  rewrite (Array_some_pure _
    (λ tc, strict_eq (prop tc "id") (prop (VObj (σ msg)) "tool_call_id"))).
  - cbn. by destruct (existsb _ _).
  - eapply Forall_impl; [exact Htyped|]. intros tc Htc. cbn.
    by rewrite (Get_not_nullish tc "id" Htc).
Qed.

Lemma push_toolCallState_typed (toolMessages : list loc) (messageId : value)
    (messageIndex : nat) (tc : value) (acc : list ToolCallState) :
  nullish tc = false →
  push_toolCallState σ toolMessages messageId messageIndex tc acc =
  Normal (acc ++
    [ {| toolCall := tc;
         toolMessage :=
           List.find (λ tm, strict_eq (prop (VObj (σ tm)) "tool_call_id") (prop tc "id"))
                     toolMessages;
         aiMessageId := messageId;
         timestamp := Z.of_nat messageIndex * 1000 |} ]).
Proof.
  intros Htc. unfold push_toolCallState.
  rewrite (Array_find_pure _
    (λ tm, strict_eq (prop (VObj (σ tm)) "tool_call_id") (prop tc "id"))); [done|].
  apply Forall_forall. intros tm _. rewrite Get_object. cbn.
  by rewrite (Get_not_nullish tc "id" Htc).
Qed.

(** Among the collected tool messages, the first whose [tool_call_id] is
    the id of a tool call of the list is the first message of the whole
    sequence that answers that id. *)
Lemma find_among_collected (all : list loc) (toolCalls : list value) (tc : value) :
  tc ∈ toolCalls →
  List.find (λ tm, strict_eq (prop (VObj (σ tm)) "tool_call_id") (prop tc "id"))
            (List.filter (collected σ toolCalls) all)
  = first_answer σ all (prop tc "id").
Proof.
  intros Hin. rewrite find_filter. unfold first_answer. apply find_ext.
  intros m _. unfold collected, answers.
  destruct (is_true (isToolMessage (VObj (σ m)))); cbn; [|done].
  destruct (ToBoolean (prop (VObj (σ m)) "tool_call_id")); cbn; [|done].
  destruct (strict_eq (prop (VObj (σ m)) "tool_call_id") (prop tc "id")) eqn:E;
    [|apply andb_false_r].
  rewrite andb_true_r. apply existsb_exists. exists tc. split.
  - by apply list_elem_of_In.
  - by rewrite strict_eq_sym.
Qed.

Lemma reconcile_message_typed (all : list loc) (message : loc) (messageIndex : nat)
    (map : gmap loc (list ToolCallState)) :
  (isAIMessage (VObj (σ message)) = Normal true →
   Forall (λ tc, nullish tc = false) (toolCalls_of σ message)) →
  reconcile_message σ all message messageIndex map =
  Normal (if owns_toolCalls_b σ message
          then <[message := states_at σ all messageIndex message]> map
          else map).
Proof.
  intros Htyped. unfold reconcile_message, owns_toolCalls_b.
  pose proof (isAIMessage_stored message) as Hs.
  destruct (isAIMessage (VObj (σ message))) as [b|e]; [clear Hs|discriminate].
  unfold is_true. rewrite bind_Normal. destruct b; cbn [negb andb]; [|done].
  specialize (Htyped eq_refl).
  cbv zeta. rewrite !Get_object, !bind_Normal, elements_of_tool_calls.
  fold (toolCalls_of σ message).
  rewrite (for_of_push_filter _ (collected σ (toolCalls_of σ message))).
  2:{ apply Forall_forall. intros msg _ acc. by apply collect_toolMessage_typed. }
  rewrite bind_Normal, app_nil_l.
  destruct (0 <? length (toolCalls_of σ message))%nat; [|done].
  rewrite (for_of_push_map _ (λ tc,
    {| toolCall := tc;
       toolMessage :=
         List.find (λ tm, strict_eq (prop (VObj (σ tm)) "tool_call_id") (prop tc "id"))
                   (List.filter (collected σ (toolCalls_of σ message)) all);
       aiMessageId := or_else (prop (VObj (σ message)) "id")
                              (VStr ("msg-" +:+ pretty messageIndex));
       timestamp := Z.of_nat messageIndex * 1000 |})).
  2:{ eapply Forall_impl; [exact Htyped|]. intros tc Htc acc. cbn.
      by apply push_toolCallState_typed. }
  cbn. do 2 f_equal. unfold states_at.
  apply list_fmap_ext. intros i tc Hi. f_equal.
  apply find_among_collected. by eapply list_elem_of_lookup_2.
Qed.

(** Sorting a list whose states all carry the same timestamp leaves it as
    it is. *)
Lemma sort_same_timestamp (t : Z) (calls : list ToolCallState) :
  Forall (λ st, timestamp st = t) calls → sort_by_timestamp calls = calls.
Proof.
  induction 1 as [|x l Hx Hl IH]; cbn; [done|].
  unfold sort_by_timestamp in IH. rewrite IH.
  destruct Hl as [|y l Hy Hl]; cbn; [done|].
  rewrite Hx, Hy, Z.sub_diag. reflexivity.
Qed.

Lemma sort_states_at (all : list loc) (i : nat) (m : loc) :
  sort_by_timestamp (states_at σ all i m) = states_at σ all i m.
Proof.
  apply (sort_same_timestamp (Z.of_nat i * 1000)).
  unfold states_at. apply Forall_fmap, Forall_forall. by intros tc _.
Qed.
End ReconcilerProperties.

Section PassProperties.
Context `{HostLibrary}.
Variable σ : store.

Lemma last_position_cons (x : loc) (l : list loc) (m : loc) (j : nat) :
  last_position (x :: l) m (S j) ↔ last_position l m j.
Proof.
  unfold last_position. split; intros [Hj Hlater]; (split; [exact Hj|]).
  - intros k Hk. apply (Hlater (S k)). lia.
  - intros [|k] Hk; [lia|]. apply Hlater. lia.
Qed.

Lemma last_position_head (x : loc) (l : list loc) (m : loc) :
  last_position (x :: l) m 0 ↔ x = m ∧ m ∉ l.
Proof.
  unfold last_position. split.
  - intros [Hx Hlater]. split; [by inversion Hx|].
    intros [k Hk]%list_elem_of_lookup. apply (Hlater (S k)); [lia|exact Hk].
  - intros [-> Hnot]. split; [done|].
    intros [|k] Hk Hl; [lia|]. apply Hnot. by eapply list_elem_of_lookup_2.
Qed.

Lemma last_position_exists (l : list loc) (m : loc) :
  m ∈ l → ∃ j, last_position l m j.
Proof.
  induction l as [|x l IH]; intros Hin; [by apply elem_of_nil in Hin|].
  destruct (decide (m ∈ l)) as [Hl|Hl].
  - destruct (IH Hl) as [j Hj]. exists (S j). by apply last_position_cons.
  - exists 0. apply last_position_head. split; [|done].
    apply elem_of_cons in Hin as [->|?]; done.
Qed.

Lemma last_position_unique (l : list loc) (m : loc) (i j : nat) :
  last_position l m i → last_position l m j → i = j.
Proof.
  intros [Hi Hli] [Hj Hlj].
  destruct (Nat.lt_trichotomy i j) as [Hlt|[Heq|Hgt]]; [|done|].
  - by destruct (Hli j Hlt).
  - by destruct (Hlj i Hgt).
Qed.

(** The loop over the sequence, from any index and any map: it completes
    on a typed sequence, a message that owns tool calls ends up with the
    states built at its last position, and no other key is touched. *)
Lemma forEach_reconcile (all l : list loc) (i : nat) (map : gmap loc (list ToolCallState)) :
  toolCalls_typed σ l →
  ∃ map', forEach_from (reconcile_message σ all) i l map = Normal map' ∧
    ∀ m, (owns_toolCalls_b σ m = true → ∀ j, last_position l m j →
            map' !! m = Some (states_at σ all (i + j) m)) ∧
         (m ∉ l ∨ owns_toolCalls_b σ m = false → map' !! m = map !! m).
Proof.
  revert i map. induction l as [|x l IH]; intros i map Htyped.
  - exists map. split; [done|]. intros m. split; [|done].
    intros _ j [Hj _]. by rewrite lookup_nil in Hj.
  - cbn [forEach_from].
    apply Forall_cons in Htyped as [Htx Htyped].
    rewrite reconcile_message_typed by exact Htx.
    rewrite bind_Normal.
    destruct (IH (S i)
      (if owns_toolCalls_b σ x then <[x := states_at σ all i x]> map else map))
      as (map' & Hrun & Hlook); [exact Htyped|].
    exists map'. split; [exact Hrun|]. intros m.
    destruct (Hlook m) as [Hlast Hkeep]. split.
    + intros Howns [|j] Hj.
      * apply last_position_head in Hj as [-> Hnot].
        rewrite Hkeep by (by left). rewrite Howns, Nat.add_0_r.
        apply lookup_insert_eq.
      * apply last_position_cons in Hj. rewrite (Hlast Howns j Hj).
        do 2 f_equal. lia.
    + intros Hm. rewrite Hkeep.
      * destruct (owns_toolCalls_b σ x) eqn:Hx; [|done].
        apply lookup_insert_ne. intros ->.
        destruct Hm as [Hm|Hm]; [|congruence].
        apply Hm, list_elem_of_here.
      * destruct Hm as [Hm|Hm]; [left|by right].
        intros Hin. apply Hm. by apply list_elem_of_further.
Qed.

(** The whole pass on a typed sequence. *)
Lemma toolCallsByMessage_typed (all : list loc) :
  toolCalls_typed σ all →
  ∃ map, toolCallsByMessage σ all = Normal map ∧
    ∀ m, (owns_toolCalls σ m → ∀ j, last_position all m j →
            map !! m = Some (states_at σ all j m)) ∧
         (m ∉ all ∨ ¬ owns_toolCalls σ m → map !! m = None).
Proof.
  intros Htyped. unfold toolCallsByMessage, Array_forEach.
  destruct (forEach_reconcile all all 0 ∅ Htyped) as (map & Hrun & Hlook).
  rewrite Hrun, bind_Normal. eexists. split; [reflexivity|].
  intros m. destruct (Hlook m) as [Hlast Hkeep]. rewrite lookup_fmap. split.
  - intros Howns%owns_toolCalls_reflect j Hj.
    rewrite (Hlast Howns j Hj). cbn. f_equal. apply sort_states_at.
  - intros Hm. rewrite Hkeep; [by rewrite lookup_empty|].
    destruct Hm as [Hm|Hm]; [by left|right].
    destruct (owns_toolCalls_b σ m) eqn:E; [|done].
    by apply owns_toolCalls_reflect in E.
Qed.

Lemma toolCalls_typed_app_l (l extra : list loc) :
  toolCalls_typed σ (l ++ extra) → toolCalls_typed σ l.
Proof. unfold toolCalls_typed. by intros [? _]%Forall_app. Qed.

(** What the map of a typed pass holds under a key: nothing, or the states
    built at the key's last position. *)
Lemma toolCallsByMessage_entry (all : list loc)
    (map : gmap loc (list ToolCallState)) (m : loc) (states : list ToolCallState) :
  toolCalls_typed σ all →
  toolCallsByMessage σ all = Normal map →
  map !! m = Some states →
  m ∈ all ∧ owns_toolCalls σ m ∧ ∃ j, last_position all m j ∧ states = states_at σ all j m.
Proof.
  intros Htyped Hrun Hm.
  destruct (toolCallsByMessage_typed all Htyped) as (map' & Hrun' & Hlook).
  rewrite Hrun in Hrun'. inversion Hrun'; subst map'. clear Hrun'.
  destruct (Hlook m) as [Hlast Hnone].
  destruct (decide (m ∈ all)) as [Hin|Hout];
    [|rewrite Hnone in Hm by (by left); discriminate].
  destruct (owns_toolCalls_b σ m) eqn:Howns.
  - apply owns_toolCalls_reflect in Howns.
    destruct (last_position_exists all m Hin) as [j Hj].
    rewrite (Hlast Howns j Hj) in Hm. inversion Hm.
    split; [done|]. split; [done|]. by exists j.
  - rewrite Hnone in Hm; [discriminate|]. right.
    intros Ho%owns_toolCalls_reflect. congruence.
Qed.

(** The render sequence is the boolean filter of the input. *)
Lemma renderSequence_filter (all : list loc) :
  renderSequence σ all =
  Normal (List.filter (λ m, negb (is_true (isToolMessage (VObj (σ m))))) all).
Proof.
  unfold renderSequence. apply Array_filter_pure, Forall_forall.
  intros m _. by rewrite isToolMessage_stored.
Qed.
End PassProperties.

(** Outside the declared types the pass can abort: reading the id of a
    [null] tool call throws. *)
Lemma toolCallsByMessage_null_tool_call :
  toolCallsByMessage (H := plain_data) null_call_session [0; 1]
  = Throw (TypeError "Cannot read properties of null (reading 'id')").
Proof. reflexivity. Qed.

(** The two scenarios of the specification: the call is pending before the
    tool message arrives and completed once it is appended. *)
Lemma toolCallsByMessage_pending_then_completed :
  (∃ map, toolCallsByMessage (H := plain_data) search_session [0; 1] = Normal map ∧
          map !! 1 = Some [ {| toolCall := toolCall t1_completed;
                               toolMessage := None;
                               aiMessageId := VStr "msg-1";
                               timestamp := 1000 |} ]) ∧
  (∃ map, toolCallsByMessage (H := plain_data) search_session [0; 1; 2] = Normal map ∧
          map !! 1 = Some [t1_completed]).
Proof. split; eexists; split; vm_compute; reflexivity. Qed.

(** ** The render pass *)

Lemma Array_map_from_spec {A B} (f : A → nat → completion B) (R : nat → A → B → Prop)
    (l : list A) (i : nat) :
  (∀ k x, l !! k = Some x → ∃ y, f x (i + k) = Normal y ∧ R (i + k) x y) →
  ∃ out, Array_map_from f i l = Normal out ∧ length out = length l ∧
    ∀ k x y, l !! k = Some x → out !! k = Some y → R (i + k) x y.
Proof.
  revert i. induction l as [|x l IH]; intros i Hf.
  - exists []. repeat split. intros k x y Hk. by rewrite lookup_nil in Hk.
  - destruct (Hf 0 x eq_refl) as (y & Hy & HR). rewrite Nat.add_0_r in Hy, HR.
    destruct (IH (S i)) as (out & Hrun & Hlen & Hout).
    { intros k z Hk. replace (S i + k) with (i + S k) by lia. by apply Hf. }
    exists (y :: out). cbn [Array_map_from]. rewrite Hy, bind_Normal, Hrun, bind_Normal.
    split; [done|]. split; [cbn; by rewrite Hlen|].
    intros [|k] x' y' Hx Hy'; cbn in Hx, Hy'.
    + inversion Hx; inversion Hy'; subst. by rewrite Nat.add_0_r.
    + replace (i + S k) with (S i + k) by lia. by eapply Hout.
Qed.

Section RenderProperties.
Context `{HostLibrary}.
Variable σ : store.

(** What is rendered for one message, in closed form, when the states
    looked up for it hold well-typed tool calls and the text of its content
    can be extracted. *)
Lemma render_message_typed (stream : Stream) (map : gmap loc (list ToolCallState))
    (message : loc) (messageIndex : nat) :
  (∀ states, map !! message = Some states →
     Forall (λ st, nullish (toolCall st) = false) states) →
  extractable (prop (VObj (σ message)) "content") = true →
  let shown := List.filter (λ m, negb (is_true (isToolMessage (VObj (σ m)))))
                           (messages stream) in
  let ai := is_true (isAIMessage (VObj (σ message))) in
  let last := (S messageIndex =? length shown)%nat in
  let text := match extractTextContent (prop (VObj (σ message)) "content") with
              | Normal s => s
              | Throw _ => ""
              end in
  render_message σ stream map message messageIndex =
  Normal {| item_key := or_else (prop (VObj (σ message)) "id") (VNum (Z.of_nat messageIndex));
            item_message := message;
            item_bubble :=
              if negb (String.eqb text "") then
                Some {| alignment :=
                          if strict_eq (prop (VObj (σ message)) "type") (VStr "human")
                          then justify_end else justify_start;
                        bubble_text := text;
                        cursor := last && isLoading stream |}
              else None;
            item_toolCalls :=
              (λ st, (prop (toolCall st) "id", st))
                <$> (if ai then default [] (map !! message) else []);
            item_error :=
              if errorMessage_set (error stream) && ai && last
              then errorMessage (error stream) else None |}.
Proof.
  intros Htyped Hcontent shown ai last text.
  unfold render_message, associatedToolCalls, is_last_rendered.
  rewrite renderSequence_filter. fold shown.
  assert (Hlast : (Z.of_nat messageIndex =? Z.of_nat (length shown) - 1)%Z = last).
  { subst last. destruct (Nat.eqb_spec (S messageIndex) (length shown)) as [E|E].
    - apply Z.eqb_eq. lia.
    - apply Z.eqb_neq. lia. }
  assert (Hai : isAIMessage (VObj (σ message)) = Normal ai)
    by apply isAIMessage_stored.
  assert (Htext : extractTextContent (prop (VObj (σ message)) "content") = Normal text).
  { subst text. by apply extractTextContent_extractable. }
  clearbody ai text last.
  set (calls := if ai then default [] (map !! message) else []).
  assert (Hcalls : (if ai then Normal (default [] (map !! message)) else Normal [])
                   = Normal calls) by (subst calls; by destruct ai).
  assert (Hkeys : Forall (λ st, nullish (toolCall st) = false) calls).
  { subst calls. destruct ai; [|constructor].
    destruct (map !! message) as [states|]; [by apply Htyped|constructor]. }
  assert (Hmap : Array_map (λ (toolCallState : ToolCallState) (_ : nat),
                    key ← Get (toolCall toolCallState) "id"; Normal (key, toolCallState))
                   calls
                 = Normal ((λ st, (prop (toolCall st) "id", st)) <$> calls)).
  { unfold Array_map.
    rewrite (Array_map_from_pure _ (λ st _, (prop (toolCall st) "id", st))).
    - f_equal. apply (imap_const (λ st, (prop (toolCall st) "id", st))).
    - intros k st Hk. rewrite (Get_not_nullish (toolCall st) "id"); [done|].
      by eapply (Forall_lookup_1 _ _ _ _ Hkeys). }
  clearbody calls.
  rewrite Hai. cbn [mbind completion_bind]. rewrite Hcalls. cbn [mbind completion_bind].
  rewrite !Get_object. cbn [mbind completion_bind].
  rewrite Htext. cbn [mbind completion_bind].
  rewrite isHumanMessage_object, Hmap, Hlast.
  destruct (negb (String.eqb text "")), (errorMessage_set (error stream)), ai;
    cbn [mbind completion_bind andb]; reflexivity.
Qed.

(** Every state of the reconciled map holds a well-typed tool call. *)
Lemma toolCallsByMessage_states_typed (all : list loc) (map : gmap loc (list ToolCallState))
    (m : loc) (states : list ToolCallState) :
  toolCalls_typed σ all →
  toolCallsByMessage σ all = Normal map →
  map !! m = Some states →
  Forall (λ st, nullish (toolCall st) = false) states.
Proof.
  intros Htyped Hrun Hm.
  destruct (toolCallsByMessage_entry σ all map m states Htyped Hrun Hm)
    as (Hin & [Hai _] & j & _ & ->).
  unfold states_at. apply Forall_fmap. cbn.
  by apply (proj1 (Forall_forall _ _) Htyped m Hin).
Qed.

(** The content of a message of the render sequence is extractable when
    the contents of the sequence are. *)
Lemma contents_extractable_shown (all : list loc) (k : nat) (m : loc) :
  contents_extractable σ all →
  List.filter (λ m, negb (is_true (isToolMessage (VObj (σ m))))) all !! k = Some m →
  extractable (prop (VObj (σ m)) "content") = true.
Proof.
  intros Hall Hk.
  apply list_elem_of_lookup_2, list_elem_of_In, filter_In in Hk as [Hin Hm].
  apply (proj1 (Forall_forall _ _) Hall m); [by apply list_elem_of_In|].
  rewrite isToolMessage_stored. by destruct (is_true _).
Qed.

(** The render of a non-empty typed sequence with extractable contents: one
    item per message of the render sequence, each in the closed form
    above. *)
Lemma render_typed (stream : Stream) :
  toolCalls_typed σ (messages stream) →
  contents_extractable σ (messages stream) →
  messages stream ≠ [] →
  ∃ map shown items,
    toolCallsByMessage σ (messages stream) = Normal map ∧
    renderSequence σ (messages stream) = Normal shown ∧
    render σ stream = Normal (Timeline items (isLoading stream)) ∧
    length items = length shown ∧
    ∀ k m item, shown !! k = Some m → items !! k = Some item →
      render_message σ stream map m k = Normal item.
Proof.
  intros Htyped Hcontents Hne. unfold render.
  destruct (toolCallsByMessage_typed σ _ Htyped) as (map & Hrun & _).
  rewrite Hrun, bind_Normal.
  destruct (messages stream) as [|m0 rest] eqn:Hmsgs; [done|]. cbn [length Nat.eqb].
  rewrite <- Hmsgs in *.
  rewrite renderSequence_filter, bind_Normal.
  set (shown := List.filter _ (messages stream)).
  destruct (Array_map_from_spec (render_message σ stream map)
              (λ k m item, render_message σ stream map m k = Normal item) shown 0)
    as (items & Hitems & Hlen & Hspec).
  { intros k m Hk. cbn.
    pose proof (render_message_typed stream map m k) as Hm. cbv zeta in Hm.
    rewrite Hm; [by eexists| |by eapply contents_extractable_shown].
    intros states Hs. by eapply toolCallsByMessage_states_typed. }
  unfold Array_map. rewrite Hitems, bind_Normal.
  exists map, shown, items. repeat split; [done|].
  intros k m item Hk Hi. by apply (Hspec k m item Hk Hi).
Qed.
End RenderProperties.

(** A rendered item shows the message it was rendered for. *)
Lemma render_message_item_message `{HostLibrary} (σ : store) (stream : Stream)
    (map : gmap loc (list ToolCallState)) (message : loc) (k : nat) (item : RenderedMessage) :
  render_message σ stream map message k = Normal item → item_message item = message.
Proof.
  unfold render_message. intros Hrun.
  repeat match type of Hrun with
         | (?c ≫= _) = Normal _ =>
             destruct c; [cbn [mbind completion_bind] in Hrun|discriminate]
         end.
  by inversion Hrun.
Qed.

Lemma Array_map_from_Forall2 {A B} (f : A → nat → completion B) (R : A → B → Prop)
    (l : list A) (i : nat) (out : list B) :
  (∀ x k y, f x k = Normal y → R x y) →
  Array_map_from f i l = Normal out → Forall2 R l out.
Proof.
  intros Hf. revert i out. induction l as [|x l IH]; intros i out; cbn [Array_map_from].
  - intros [= <-]. constructor.
  - destruct (f x i) as [y|] eqn:Hy; [|discriminate]. cbn [mbind completion_bind].
    destruct (Array_map_from f (S i) l) as [rest|] eqn:Hrest; [|discriminate].
    cbn [mbind completion_bind]. intros [= <-]. constructor; eauto.
Qed.

(** Whenever the render completes, its items are rendered for the messages
    of the render sequence, one each, in order. *)
Lemma render_items_of_renderSequence `{HostLibrary} (σ : store) (stream : Stream)
    (view : View) (shown : list loc) :
  render σ stream = Normal view →
  renderSequence σ (messages stream) = Normal shown →
  item_message <$> rendered_items view = shown.
Proof.
  unfold render. intros Hrun Hshown.
  destruct (toolCallsByMessage σ (messages stream)) as [map|]; [|discriminate].
  cbn [mbind completion_bind] in Hrun.
  destruct (messages stream) as [|m0 rest] eqn:Hmsgs.
  - cbn in Hrun, Hshown. inversion Hrun. by inversion Hshown.
  - cbn [length Nat.eqb] in Hrun. rewrite Hshown in Hrun.
    cbn [mbind completion_bind] in Hrun. unfold Array_map in Hrun.
    destruct (Array_map_from _ 0 shown) as [items|] eqn:Hitems; [|discriminate].
    inversion Hrun. cbn [rendered_items].
    apply (Array_map_from_Forall2 _ (λ m item, item_message item = m)) in Hitems.
    + clear -Hitems. induction Hitems as [|m item l items Hm _ IH]; [done|].
      cbn. by rewrite Hm, IH.
    + intros m k item. apply render_message_item_message.
Qed.

(** The view of a typed sequence with extractable contents, item by item,
    in closed form. *)
Lemma render_view_typed `{HostLibrary} (σ : store) (stream : Stream) :
  toolCalls_typed σ (messages stream) →
  contents_extractable σ (messages stream) →
  ∃ map shown view,
    toolCallsByMessage σ (messages stream) = Normal map ∧
    renderSequence σ (messages stream) = Normal shown ∧
    render σ stream = Normal view ∧
    (view = WelcomeScreen ↔ messages stream = []) ∧
    (∀ items dots, view = Timeline items dots → dots = isLoading stream) ∧
    item_message <$> rendered_items view = shown ∧
    ∀ k item, rendered_items view !! k = Some item →
      extractTextContent (prop (VObj (σ (item_message item))) "content")
        = Normal (text_of σ (item_message item)) ∧
      item_key item = or_else (prop (VObj (σ (item_message item))) "id") (VNum (Z.of_nat k)) ∧
      item_bubble item =
        (if negb (String.eqb (text_of σ (item_message item)) "") then
           Some {| alignment :=
                     if strict_eq (prop (VObj (σ (item_message item))) "type") (VStr "human")
                     then justify_end else justify_start;
                   bubble_text := text_of σ (item_message item);
                   cursor := (S k =? length shown)%nat && isLoading stream |}
         else None) ∧
      item_toolCalls item =
        (λ st, (prop (toolCall st) "id", st))
          <$> (if is_true (isAIMessage (VObj (σ (item_message item))))
               then default [] (map !! item_message item) else []) ∧
      item_error item =
        (if errorMessage_set (error stream)
            && is_true (isAIMessage (VObj (σ (item_message item))))
            && (S k =? length shown)%nat
         then errorMessage (error stream) else None).
Proof.
  intros Htyped Hcontents.
  destruct (decide (messages stream = [])) as [Hnil|Hne].
  - exists ∅, [], WelcomeScreen. unfold render. rewrite Hnil.
    split; [reflexivity|]. split; [reflexivity|]. split; [reflexivity|].
    split; [done|]. split; [done|]. split; [done|].
    intros k item Hk. cbn [rendered_items] in Hk. by rewrite lookup_nil in Hk.
  - destruct (render_typed σ stream Htyped Hcontents Hne)
      as (map & shown & items & Hrun & Hshown & Hrender & Hlen & Hitems).
    exists map, shown, (Timeline items (isLoading stream)).
    split; [exact Hrun|]. split; [exact Hshown|]. split; [exact Hrender|].
    split; [done|]. split; [by intros ? ? [= _ <-]|].
    split; [by eapply render_items_of_renderSequence|].
    cbn [rendered_items]. intros k item Hk.
    destruct (shown !! k) as [m|] eqn:Hm.
    2:{ apply lookup_ge_None in Hm. apply lookup_lt_Some in Hk. lia. }
    pose proof (Hitems k m item Hm Hk) as Hitem.
    pose proof (render_message_typed σ stream map m k) as Hclosed. cbv zeta in Hclosed.
    rewrite renderSequence_filter in Hshown. inversion Hshown; subst shown.
    assert (Hcontent : extractable (prop (VObj (σ m)) "content") = true)
      by (by eapply contents_extractable_shown).
    rewrite Hclosed in Hitem;
      [|intros states Hst; by eapply toolCallsByMessage_states_typed|exact Hcontent].
    inversion Hitem. cbn. split; [|done].
    unfold text_of. by apply extractTextContent_extractable.
Qed.

Lemma render_message_unextractable `{HostLibrary} (σ : store) (stream : Stream)
    (map : gmap loc (list ToolCallState)) (message : loc) (messageIndex : nat) :
  extractable (prop (VObj (σ message)) "content") = false →
  render_message σ stream map message messageIndex = Throw not_convertible.
Proof.
  intros Hcontent. unfold render_message, associatedToolCalls.
  pose proof (isAIMessage_stored σ message) as Hai.
  destruct (isAIMessage (VObj (σ message))) as [ai|]; [clear Hai|discriminate].
  cbn [mbind completion_bind].
  assert (Hcalls : ∃ calls, (if ai then Normal (default [] (map !! message)) else Normal [])
                            = Normal calls) by (destruct ai; by eexists).
  destruct Hcalls as [calls ->]. cbn [mbind completion_bind].
  rewrite !Get_object. cbn [mbind completion_bind].
  by rewrite (proj2 (extractTextContent_outcome _) Hcontent).
Qed.

Lemma Array_map_from_throw {A B} (f : A → nat → completion B) (e : thrown)
    (l : list A) (i : nat) :
  (∀ k x, l !! k = Some x → (∃ y, f x (i + k) = Normal y) ∨ f x (i + k) = Throw e) →
  (∃ k x, l !! k = Some x ∧ f x (i + k) = Throw e) →
  Array_map_from f i l = Throw e.
Proof.
  revert i. induction l as [|x l IH]; intros i Hall (k & z & Hk & Hz).
  - by rewrite lookup_nil in Hk.
  - cbn [Array_map_from].
    destruct (Hall 0 x eq_refl) as [[y Hy]|Hx]; rewrite Nat.add_0_r in *.
    2:{ by rewrite Hx. }
    rewrite Hy. cbn [mbind completion_bind]. rewrite (IH (S i)); [done| |].
    + intros k' x' Hk'. replace (S i + k') with (i + S k') by lia. by apply Hall.
    + destruct k as [|k].
      { cbn in Hk. inversion Hk; subst. rewrite Nat.add_0_r in Hz. congruence. }
      exists k, z. split; [done|]. by replace (S i + k) with (i + S k) by lia.
Qed.

(** The render of a typed sequence throws the [TypeError] of the
    conversion when a content it shows is not extractable. *)
Lemma render_throws `{HostLibrary} (σ : store) (stream : Stream) :
  toolCalls_typed σ (messages stream) →
  ¬ contents_extractable σ (messages stream) →
  render σ stream = Throw not_convertible.
Proof.
  intros Htyped Hnot.
  apply not_Forall_Exists in Hnot; [|apply _].
  apply Exists_exists in Hnot as (m & Hin & Hm).
  assert (Htool : isToolMessage (VObj (σ m)) = Normal false).
  { destruct (decide (isToolMessage (VObj (σ m)) = Normal false)); [done|].
    destruct Hm. by intros. }
  assert (Hcontent : extractable (prop (VObj (σ m)) "content") = false).
  { destruct (extractable _) eqn:E; [|done]. destruct Hm. by intros. }
  unfold render.
  destruct (toolCallsByMessage_typed σ _ Htyped) as (map & Hrun & _).
  rewrite Hrun. cbn [mbind completion_bind].
  destruct (messages stream) as [|m0 rest] eqn:Hmsgs; [by apply elem_of_nil in Hin|].
  cbn [length Nat.eqb]. rewrite <- Hmsgs in *.
  rewrite renderSequence_filter. cbn [mbind completion_bind].
  unfold Array_map. rewrite (Array_map_from_throw _ not_convertible); [done| |].
  - intros k x Hk. cbn [Nat.add].
    destruct (extractable (prop (VObj (σ x)) "content")) eqn:Ex.
    + left. pose proof (render_message_typed σ stream map x k) as Hx. cbv zeta in Hx.
      rewrite Hx; [by eexists| |done].
      intros states Hst. by eapply toolCallsByMessage_states_typed.
    + right. by apply render_message_unextractable.
  - assert (Hshown : m ∈ List.filter (λ m, negb (is_true (isToolMessage (VObj (σ m)))))
                                     (messages stream)).
    { apply list_elem_of_In, filter_In. split; [by apply list_elem_of_In|].
      by rewrite Htool. }
    apply list_elem_of_lookup in Hshown as [k Hk].
    exists k, m. split; [done|]. by apply render_message_unextractable.
Qed.

(** The view a render of a typed sequence has returned, item by item, in
    closed form. *)
Lemma render_view_returned `{HostLibrary} (σ : store) (stream : Stream) (view : View) :
  toolCalls_typed σ (messages stream) →
  render σ stream = Normal view →
  ∃ map shown,
    toolCallsByMessage σ (messages stream) = Normal map ∧
    renderSequence σ (messages stream) = Normal shown ∧
    (view = WelcomeScreen ↔ messages stream = []) ∧
    (∀ items dots, view = Timeline items dots → dots = isLoading stream) ∧
    item_message <$> rendered_items view = shown ∧
    ∀ k item, rendered_items view !! k = Some item →
      extractTextContent (prop (VObj (σ (item_message item))) "content")
        = Normal (text_of σ (item_message item)) ∧
      item_key item = or_else (prop (VObj (σ (item_message item))) "id") (VNum (Z.of_nat k)) ∧
      item_bubble item =
        (if negb (String.eqb (text_of σ (item_message item)) "") then
           Some {| alignment :=
                     if strict_eq (prop (VObj (σ (item_message item))) "type") (VStr "human")
                     then justify_end else justify_start;
                   bubble_text := text_of σ (item_message item);
                   cursor := (S k =? length shown)%nat && isLoading stream |}
         else None) ∧
      item_toolCalls item =
        (λ st, (prop (toolCall st) "id", st))
          <$> (if is_true (isAIMessage (VObj (σ (item_message item))))
               then default [] (map !! item_message item) else []) ∧
      item_error item =
        (if errorMessage_set (error stream)
            && is_true (isAIMessage (VObj (σ (item_message item))))
            && (S k =? length shown)%nat
         then errorMessage (error stream) else None).
Proof.
  intros Htyped Hview.
  assert (Hcontents : contents_extractable σ (messages stream)).
  { destruct (decide (contents_extractable σ (messages stream))) as [|Hnot]; [done|].
    rewrite (render_throws σ stream Htyped Hnot) in Hview. discriminate. }
  destruct (render_view_typed σ stream Htyped Hcontents)
    as (map & shown & view' & Hrun & Hshown & Hrender & Hrest).
  rewrite Hview in Hrender. injection Hrender as <-.
  by exists map, shown.
Qed.

(** ** Text extraction and classification *)

Lemma concat_fragments_texts (fragments : list value) (texts : list string) :
  Forall2 (λ fragment text, fragment_text fragment = Normal text) fragments texts →
  concat_fragments fragments = Normal (String.concat "" texts).
Proof.
  induction 1 as [|x t l ts Hx _ IH]; [reflexivity|].
  cbn [concat_fragments]. rewrite Hx, IH. cbn [mbind completion_bind].
  by rewrite concat_empty_cons.
Qed.

Lemma concat_fragments_throw (first rest : list value) (texts : list string)
    (fragment : value) (e : thrown) :
  Forall2 (λ fragment text, fragment_text fragment = Normal text) first texts →
  fragment_text fragment = Throw e →
  concat_fragments (first ++ fragment :: rest) = Throw e.
Proof.
  intros Hfirst He. induction Hfirst as [|x t l ts Hx _ IH]; cbn [app concat_fragments].
  - by rewrite He.
  - by rewrite Hx, IH.
Qed.

(** C4. [extractTextContent] returns a string unchanged; on a list of
    fragments it returns the concatenation, in list order, of each fragment's
    text (the fragment itself when it is a string, else its [text] attribute
    coerced to a string, else the empty string); on a single object with a
    [text] attribute it returns that attribute coerced to a string; on
    [null] and [undefined] it returns the empty string.  The four sample
    calls of the specification evaluate to "hello", "abc", "x" and "".
    The coercion is that of [String]: a string is left as it is, an integer
    below 2^53 in magnitude prints as its decimal digits (10^21 prints as
    "1e+21", 2^60 as "1152921504606847000"), a boolean, [null] and [undefined]
    print as their names, an array prints its elements separated by commas,
    an object prints as "[object Object]" unless it has a field [toString]
    of its own, on which the coercion, and with it the extraction, throws a
    [TypeError]; the extraction of a list throws what the coercion of its
    first failing fragment throws. *)
Theorem extractTextContent_cases :
  (∀ s, extractTextContent (VStr s) = Normal s) ∧
  (∀ items texts,
     Forall2 (λ item text, fragment_text item = Normal text) items texts →
     extractTextContent (VArr items) = Normal (String.concat "" texts)) ∧
  (∀ first item rest texts e,
     Forall2 (λ item text, fragment_text item = Normal text) first texts →
     fragment_text item = Throw e →
     extractTextContent (VArr (first ++ item :: rest)) = Throw e) ∧
  (∀ fields text, own fields "text" = Some text →
     extractTextContent (VObj fields) = ToString text) ∧
  extractTextContent VNull = Normal "" ∧
  extractTextContent VUndefined = Normal "" ∧
  extractTextContent (VStr "hello") = Normal "hello" ∧
  extractTextContent (VArr [ VObj [ ("text", VStr "a") ]; VStr "b"; VObj [ ("text", VStr "c") ] ])
    = Normal "abc" ∧
  extractTextContent (VObj [ ("text", VStr "x") ]) = Normal "x" ∧
  (∀ s, ToString (VStr s) = Normal s) ∧
  (∀ n, (- 2 ^ 53 < n < 2 ^ 53)%Z → ToString (VNum n) = Normal (pretty n)) ∧
  ToString (VNum (10 ^ 21)) = Normal "1e+21" ∧
  ToString (VNum (2 ^ 60)) = Normal "1152921504606847000" ∧
  (∀ b, ToString (VBool b) = Normal (if b then "true" else "false")) ∧
  ToString VNull = Normal "null" ∧
  ToString VUndefined = Normal "undefined" ∧
  (∀ items, ToString (VArr items) = join_commas items) ∧
  (∀ fields, own fields "toString" = None →
     ToString (VObj fields) = Normal "[object Object]") ∧
  (∀ fields f, own fields "toString" = Some f →
     ToString (VObj fields) = Throw not_convertible) ∧
  extractTextContent (VArr [ VObj [ ("text", VNum 42) ]; VStr "b"; VNum 7;
                             VObj [ ("text", VNull) ]; VObj [ ("text", VArr [ VNum 1; VNull; VStr "c" ]) ] ])
    = Normal "42bnull1,,c" ∧
  extractTextContent (VObj [ ("text", VObj [ ("toString", VNum 1) ]) ])
    = Throw not_convertible.
Proof.
  split; [reflexivity|].
  split; [intros items texts Htexts;
          rewrite extractTextContent_array; by apply concat_fragments_texts|].
  split; [intros first item rest texts e Hfirst He;
          rewrite extractTextContent_array; by eapply concat_fragments_throw|].
  split; [intros fields text Htext; by rewrite extractTextContent_object, Htext|].
  do 5 (split; [reflexivity|]).
  split; [reflexivity|].
  split; [intros n Hn; cbn [ToString]; by rewrite Number_toString_safe|].
  do 2 (split; [by vm_compute|]).
  split; [by intros []|].
  do 2 (split; [reflexivity|]).
  split; [apply ToString_array|].
  split; [intros fields Hnone; cbn [ToString]; by rewrite Hnone|].
  split; [intros fields f Hsome; cbn [ToString]; by rewrite Hsome|].
  split; by vm_compute.
Qed.

(** C5. The three role classifiers are total: on every value, [null],
    [undefined], primitives and objects of any shape included,
    [isAIMessage], [isToolMessage] and [isHumanMessage] return and do not
    throw, and a value that carries none of the three role tags and is not
    an AI message instance of the library classifies as none of the three
    roles.  [extractTextContent] returns on [null], [undefined], every
    primitive and every other value whose text is extractable, and only on
    these: when a value it hands to [String] is, or prints, an object with a
    field [toString] of its own, it throws the [TypeError] of the
    conversion. *)
Theorem classifier_total `{HostLibrary} (v : value) :
  (∃ b, isAIMessage v = Normal b) ∧
  (∃ b, isToolMessage v = Normal b) ∧
  (∃ b, isHumanMessage v = Normal b) ∧
  ((∃ s, extractTextContent v = Normal s) ↔ extractable v = true) ∧
  (extractable v = false → extractTextContent v = Throw not_convertible) ∧
  (String.eqb (typeof v) "object" = false ∨ v = VNull → extractable v = true) ∧
  (untagged v → AIMessage_isInstance v = false →
     isAIMessage v = Normal false ∧
     isToolMessage v = Normal false ∧
     isHumanMessage v = Normal false).
Proof.
  split; [apply isAIMessage_returns|].
  split; [apply isToolMessage_returns|].
  split; [apply isHumanMessage_returns|].
  destruct (extractTextContent_outcome v) as [Hreturns Hthrows].
  split.
  { split; [|exact Hreturns]. intros [s Hs].
    destruct (extractable v); [done|]. rewrite Hthrows in Hs; done. }
  split; [exact Hthrows|].
  split.
  { intros [Hprim| ->]; [|reflexivity].
    destruct v as [| |b|n|s|items|fields]; try discriminate; try reflexivity.
    - by destruct b.
    - unfold extractable, coerced, or_else. cbn [ToBoolean].
      by destruct (negb (n =? 0)%Z). }
  intros (Hai & Htool & Hhuman) Hinst.
  assert (Hne : ∀ s, prop v "type" ≠ VStr s → strict_eq (prop v "type") (VStr s) = false).
  { intros s Hs. destruct (strict_eq (prop v "type") (VStr s)) eqn:E; [|done].
    by apply strict_eq_str in E. }
  destruct v as [| |b|n|s|items|fields].
  - by vm_compute.
  - by vm_compute.
  - by destruct b.
  - unfold isAIMessage, isToolMessage, isHumanMessage. cbn [ToBoolean typeof].
    by destruct (negb (n =? 0)%Z).
  - unfold isAIMessage, isToolMessage, isHumanMessage. cbn [ToBoolean typeof].
    by destruct (negb (String.eqb s "")).
  - unfold isAIMessage. cbn. rewrite Hinst. done.
  - rewrite isAIMessage_object, isToolMessage_object, isHumanMessage_object.
    rewrite Hinst, !Hne by done. done.
Qed.

(** C5, as stated, fails: on an object that holds a field [toString] the
    extraction throws, and so it does on a content whose [text], or whose
    fragment's [text], is or prints such an object. *)
Lemma classifier_total_counterexample :
  extractTextContent (VObj [ ("toString", VNum 1) ]) = Throw not_convertible ∧
  extractTextContent (VObj [ ("text", VObj [ ("toString", VNull) ]) ]) = Throw not_convertible ∧
  extractTextContent (VArr [ VStr "a"; VObj [ ("text", VArr [ VObj [ ("toString", VStr "x") ] ]) ] ])
    = Throw not_convertible ∧
  ¬ (∀ v, ∃ s, extractTextContent v = Normal s).
Proof.
  do 3 (split; [by vm_compute|]).
  intros Htotal. by destruct (Htotal (VObj [ ("toString", VNum 1) ])).
Qed.

(** ** Tool-call states *)

Lemma toolCalls_of_array (σ : store) (message : loc) (items : list value) :
  Get (VObj (σ message)) "tool_calls" = Normal (VArr items) →
  toolCalls_of σ message = items.
Proof. rewrite Get_object. intros [= Hp]. unfold toolCalls_of. by rewrite Hp. Qed.

(** C1 (amended).  On a sequence whose tool-call lists are well typed, for a
    message at index [i] that classifies as AI and carries a non-empty
    tool-call list, the pass completes and its map holds for that message
    exactly one state per tool call, in the order of the list.  The
    [toolMessage] of a state is the first message of the whole sequence that
    classifies as a tool message and whose [tool_call_id] is truthy and
    strictly equal to the tool call's id ([None], pending, when there is
    none).  The timestamp is [j * 1000] for the last index [j] at which the
    same message object occurs, which is [i] itself when the object does
    not occur again after [i]. *)
Theorem toolCallStates_of_message `{HostLibrary} (σ : store) (all : list loc)
    (i : nat) (message : loc) (items : list value) :
  toolCalls_typed σ all →
  all !! i = Some message →
  isAIMessage (VObj (σ message)) = Normal true →
  Get (VObj (σ message)) "tool_calls" = Normal (VArr items) →
  items ≠ [] →
  ∃ map j,
    toolCallsByMessage σ all = Normal map ∧
    last_position all message j ∧
    (i ≤ j)%nat ∧
    ((∀ k, i < k → all !! k ≠ Some message) → j = i) ∧
    map !! message =
      Some ((λ tc, {| toolCall := tc;
                      toolMessage := first_answer σ all (prop tc "id");
                      aiMessageId := or_else (prop (VObj (σ message)) "id")
                                             (VStr ("msg-" +:+ pretty j));
                      timestamp := Z.of_nat j * 1000 |}) <$> items).
Proof.
  intros Htyped Hi Hai Hget Hne.
  destruct (toolCallsByMessage_typed σ all Htyped) as (map & Hrun & Hlook).
  assert (Hin : message ∈ all) by (by eapply list_elem_of_lookup_2).
  destruct (last_position_exists all message Hin) as [j Hj].
  exists map, j. split; [exact Hrun|]. split; [exact Hj|].
  split; [|split].
  - destruct (le_lt_dec i j) as [Hle|Hlt]; [exact Hle|].
    destruct Hj as [_ Hlater]. by destruct (Hlater i Hlt).
  - intros Hlater. apply (last_position_unique all message); [exact Hj|by split].
  - destruct (Hlook message) as [Hlast _].
    rewrite (Hlast (conj Hai (ex_intro _ items (conj Hget Hne))) j Hj).
    unfold states_at. by rewrite (toolCalls_of_array σ message items Hget).
Qed.

Lemma toolCallStates_of_message_witness :
  ∃ map j,
    toolCallsByMessage (H := plain_data) search_session [0; 1; 2] = Normal map ∧
    last_position [0; 1; 2] 1 j ∧
    (1 ≤ j)%nat ∧
    ((∀ k, 1 < k → [0; 1; 2] !! k ≠ Some 1) → j = 1) ∧
    map !! 1 =
      Some ((λ tc, {| toolCall := tc;
                      toolMessage :=
                        first_answer search_session [0; 1; 2] (prop tc "id");
                      aiMessageId := or_else (prop (VObj (search_session 1)) "id")
                                             (VStr ("msg-" +:+ pretty j));
                      timestamp := Z.of_nat j * 1000 |})
              <$> [ VObj [ ("id", VStr "t1"); ("name", VStr "search") ] ]).
Proof.
  apply (toolCallStates_of_message (H := plain_data) search_session [0; 1; 2] 1 1).
  - apply (bool_decide_unpack _). vm_compute. exact I.
  - reflexivity.
  - reflexivity.
  - reflexivity.
  - discriminate.
Defined.

(** C1, as stated, fails.  A tool call whose id is the empty string is
    never matched: the tool message with the equal, empty [tool_call_id] is
    the first tool message with that id, yet the state stays pending.  And
    for an object that occurs twice in the sequence the entry carries the
    timestamp of the later index, not of the first. *)
Lemma toolCallStates_counterexample :
  (∃ map st,
     toolCallsByMessage (H := plain_data) empty_id_session [0; 1] = Normal map ∧
     map !! 0 = Some [st] ∧
     toolCall st = VObj [ ("id", VStr ""); ("name", VStr "search") ] ∧
     first_tool_message_with_id empty_id_session [0; 1]
       (prop (toolCall st) "id") = Some 1 ∧
     toolMessage st = None) ∧
  (∃ map st,
     toolCallsByMessage (H := plain_data) search_session [1; 1] = Normal map ∧
     [1; 1] !! 0 = Some 1 ∧
     map !! 1 = Some [st] ∧
     timestamp st = 1000%Z ∧
     timestamp st ≠ (Z.of_nat 0 * 1000)%Z).
Proof.
  split.
  - eexists _, _. split; [vm_compute; reflexivity|].
    split; [vm_compute; reflexivity|]. by vm_compute.
  - eexists _, _. split; [vm_compute; reflexivity|].
    split; [reflexivity|]. split; [vm_compute; reflexivity|]. by vm_compute.
Qed.

(** C3. Monotonic association.  When the pass over a sequence [S] has
    matched a tool call of a message to a tool message, the pass over [S]
    with further messages appended still has an entry for that message, with
    the same tool call at the same place matched to the same tool message. *)
Theorem match_survives_append `{HostLibrary} (σ : store) (S extra : list loc)
    (map : gmap loc (list ToolCallState)) (message : loc)
    (states : list ToolCallState) (k : nat) (st : ToolCallState) (tm : loc) :
  toolCalls_typed σ (S ++ extra) →
  toolCallsByMessage σ S = Normal map →
  map !! message = Some states →
  states !! k = Some st →
  toolMessage st = Some tm →
  ∃ map' states' st',
    toolCallsByMessage σ (S ++ extra) = Normal map' ∧
    map' !! message = Some states' ∧
    length states' = length states ∧
    states' !! k = Some st' ∧
    toolCall st' = toolCall st ∧
    toolMessage st' = Some tm.
Proof.
  intros Htyped Hrun Hm Hk Htm.
  destruct (toolCallsByMessage_entry σ S map message states
              (toolCalls_typed_app_l σ S extra Htyped) Hrun Hm)
    as (Hin & Howns & j & Hj & ->).
  destruct (toolCallsByMessage_typed σ (S ++ extra) Htyped) as (map' & Hrun' & Hlook).
  assert (Hin' : message ∈ S ++ extra) by (apply elem_of_app; by left).
  destruct (last_position_exists _ _ Hin') as [j' Hj'].
  destruct (Hlook message) as [Hlast _].
  unfold states_at in Hk. rewrite list_lookup_fmap in Hk.
  destruct (toolCalls_of σ message !! k) as [tc|] eqn:Htc; [|discriminate].
  cbn in Hk. inversion Hk; subst st. cbn in Htm. clear Hk.
  eexists map', (states_at σ (S ++ extra) j' message), _.
  split; [exact Hrun'|]. split; [by apply Hlast|].
  split; [unfold states_at; by rewrite !length_fmap|].
  split; [unfold states_at; by rewrite list_lookup_fmap, Htc|].
  split; [reflexivity|]. cbn. by apply find_app_Some.
Qed.

Lemma match_survives_append_witness :
  ∃ map' states' st',
    toolCallsByMessage (H := plain_data) search_session ([0; 1; 2] ++ [0; 1]) = Normal map' ∧
    map' !! 1 = Some states' ∧
    length states' = length [t1_completed] ∧
    states' !! 0 = Some st' ∧
    toolCall st' = toolCall t1_completed ∧
    toolMessage st' = Some 2.
Proof.
  apply (match_survives_append (H := plain_data) search_session [0; 1; 2] [0; 1]
           {[ 1 := [t1_completed] ]} 1 [t1_completed] 0 t1_completed 2).
  - apply (bool_decide_unpack _). vm_compute. exact I.
  - vm_compute. reflexivity.
  - vm_compute. reflexivity.
  - reflexivity.
  - reflexivity.
Defined.

(** ** The domain of the tool-call map *)

(** C10. On a sequence whose tool-call lists are well typed the pass
    completes, and its map has an entry for a message of the sequence if
    and only if the message classifies as AI and its [tool_calls] field is a
    non-empty array; the map has no other key.  So a message that does not
    classify as AI (a human-role, tool-role or untagged message that the
    library does not report as an AI instance) and an AI message without
    tool calls own no state list; and whatever the map holds, the render
    pass reads it only for a message that classifies as AI: for any other
    message the associated list is empty. *)
Theorem tool_call_map_domain `{HostLibrary} (σ : store) (all : list loc) :
  toolCalls_typed σ all →
  ∃ map,
    toolCallsByMessage σ all = Normal map ∧
    (∀ m, m ∈ all → (is_Some (map !! m) ↔ owns_toolCalls σ m)) ∧
    (∀ m, is_Some (map !! m) → m ∈ all) ∧
    (∀ m, isAIMessage (VObj (σ m)) = Normal false → map !! m = None) ∧
    (∀ m, AIMessage_isInstance (VObj (σ m)) = false →
       isHumanMessage (VObj (σ m)) = Normal true ∨
       isToolMessage (VObj (σ m)) = Normal true ∨
       untagged (VObj (σ m)) →
       map !! m = None) ∧
    (∀ m, toolCalls_of σ m = [] → map !! m = None) ∧
    (∀ (any : gmap loc (list ToolCallState)) m,
       isAIMessage (VObj (σ m)) = Normal false →
       associatedToolCalls σ any m = Normal []) ∧
    (∀ m, isAIMessage (VObj (σ m)) = Normal true →
       associatedToolCalls σ map m = Normal (default [] (map !! m))).
Proof.
  intros Htyped.
  destruct (toolCallsByMessage_typed σ all Htyped) as (map & Hrun & Hlook).
  exists map. split; [exact Hrun|].
  assert (Hentry : ∀ m, is_Some (map !! m) → m ∈ all ∧ owns_toolCalls σ m).
  { intros m [states Hm].
    by destruct (toolCallsByMessage_entry σ all map m states Htyped Hrun Hm) as (? & ? & _). }
  assert (Hnot_ai : ∀ m, isAIMessage (VObj (σ m)) = Normal false → map !! m = None).
  { intros m Hnot. destruct (map !! m) as [states|] eqn:Hm; [|done].
    destruct (Hentry m) as [_ [Hai _]]; [by eexists|]. congruence. }
  split; [|split; [|split; [|split; [|split; [|split]]]]].
  - intros m Hin. split; [by intros [_ ?]%Hentry|].
    intros Howns. destruct (last_position_exists all m Hin) as [j Hj].
    destruct (Hlook m) as [Hlast _]. rewrite (Hlast Howns j Hj). by eexists.
  - by intros m [? _]%Hentry.
  - exact Hnot_ai.
  - intros m Hinst Hrole. apply Hnot_ai.
    rewrite isAIMessage_object, Hinst, orb_false_r. f_equal.
    destruct (strict_eq (prop (VObj (σ m)) "type") (VStr "ai")) eqn:E; [|done].
    apply strict_eq_str in E.
    destruct Hrole as [Hh|[Ht|(Hu & _)]].
    + rewrite isHumanMessage_object, E in Hh. by inversion Hh.
    + rewrite isToolMessage_object, E in Ht. by inversion Ht.
    + by destruct Hu.
  - intros m Hnil. destruct (map !! m) as [states|] eqn:Hm; [|done].
    destruct (Hentry m) as [_ [_ (items & Hget & Hne)]]; [by eexists|].
    by rewrite (toolCalls_of_array σ m items Hget) in Hnil.
  - intros any m Hnot. unfold associatedToolCalls. by rewrite Hnot.
  - intros m Hai. unfold associatedToolCalls. by rewrite Hai.
Qed.

Lemma tool_call_map_domain_witness :
  ∃ map,
    toolCallsByMessage (H := plain_data) search_session [0; 1; 2] = Normal map ∧
    (∀ m, m ∈ [0; 1; 2] →
       (is_Some (map !! m) ↔ owns_toolCalls (H := plain_data) search_session m)) ∧
    (∀ m, is_Some (map !! m) → m ∈ [0; 1; 2]) ∧
    (∀ m, isAIMessage (H := plain_data) (VObj (search_session m)) = Normal false →
       map !! m = None) ∧
    (∀ m, AIMessage_isInstance (HostLibrary := plain_data) (VObj (search_session m)) = false →
       isHumanMessage (VObj (search_session m)) = Normal true ∨
       isToolMessage (VObj (search_session m)) = Normal true ∨
       untagged (VObj (search_session m)) →
       map !! m = None) ∧
    (∀ m, toolCalls_of search_session m = [] → map !! m = None) ∧
    (∀ (any : gmap loc (list ToolCallState)) m,
       isAIMessage (H := plain_data) (VObj (search_session m)) = Normal false →
       associatedToolCalls (H := plain_data) search_session any m = Normal []) ∧
    (∀ m, isAIMessage (H := plain_data) (VObj (search_session m)) = Normal true →
       associatedToolCalls (H := plain_data) search_session map m
       = Normal (default [] (map !! m))).
Proof.
  apply (tool_call_map_domain (H := plain_data) search_session [0; 1; 2]).
  apply (bool_decide_unpack _). vm_compute. exact I.
Defined.

(** ** The render sequence *)

Lemma drops_tool_messages_filter (σ : store) (all : list loc) :
  drops_tool_messages σ all
    (List.filter (λ m, negb (is_true (isToolMessage (VObj (σ m))))) all).
Proof.
  induction all as [|m all IH]; cbn [List.filter]; [constructor|].
  rewrite (isToolMessage_stored σ m) in *.
  destruct (is_true (isToolMessage (VObj (σ m)))) eqn:E; cbn [negb].
  - apply drops_tool; [|exact IH]. by rewrite isToolMessage_stored, E.
  - apply drops_keep; [|exact IH]. by rewrite isToolMessage_stored, E.
Qed.

Lemma sublist_filter_bool {A} (p : A → bool) (l : list A) :
  List.filter p l `sublist_of` l.
Proof.
  induction l as [|x l IH]; cbn [List.filter]; [constructor|].
  destruct (p x); by constructor.
Qed.

Lemma sublist_into_filter {A} (p : A → bool) (kept l : list A) :
  kept `sublist_of` l → Forall (λ x, p x = true) kept → kept `sublist_of` List.filter p l.
Proof.
  induction 1 as [|x kept l _ IH|x kept l _ IH]; intros Hall; cbn [List.filter].
  - constructor.
  - apply Forall_cons in Hall as [-> Hall]. constructor. by apply IH.
  - destruct (p x); [constructor|]; by apply IH.
Qed.

(** C2. The render sequence is the input sequence with exactly the
    tool-role messages removed: the filter completes on every input, drops
    each tool message and keeps each other message in place; no message of
    the result is a tool message; the result is a subsequence of the input
    (relative order preserved) and contains every subsequence of the input
    that is free of tool messages (nothing else is dropped); and whenever
    the render completes, its items are rendered for exactly these
    messages, in this order. *)
Theorem renderSequence_drops_tool_messages (σ : store) (all : list loc) :
  ∃ shown,
    renderSequence σ all = Normal shown ∧
    drops_tool_messages σ all shown ∧
    Forall (λ m, isToolMessage (VObj (σ m)) = Normal false) shown ∧
    shown `sublist_of` all ∧
    (∀ kept, kept `sublist_of` all →
       Forall (λ m, isToolMessage (VObj (σ m)) = Normal false) kept →
       kept `sublist_of` shown) ∧
    (∀ (H : HostLibrary) isLoading error view,
       render σ {| messages := all; isLoading := isLoading; error := error |} = Normal view →
       item_message <$> rendered_items view = shown).
Proof.
  eexists. split; [apply renderSequence_filter|].
  split; [apply drops_tool_messages_filter|].
  split; [|split; [|split]].
  - apply Forall_forall. intros m Hm%list_elem_of_In%filter_In.
    destruct Hm as [_ Hm]. rewrite isToolMessage_stored.
    by destruct (is_true (isToolMessage (VObj (σ m)))).
  - apply sublist_filter_bool.
  - intros kept Hsub Hkept. apply sublist_into_filter; [exact Hsub|].
    eapply Forall_impl; [exact Hkept|]. cbn. intros m Hm. by rewrite Hm.
  - intros H isLoading error view Hrun.
    apply (render_items_of_renderSequence σ _ view _ Hrun).
    apply renderSequence_filter.
Qed.

(** ** The error bubble *)

(** C6. Whenever the render of a typed sequence returns a view, a
    rendered message carries the error bubble exactly when there is an error
    message to show (the error is an [Error] with a non-empty message, or a
    non-empty string), the message classifies as AI, and it is the last item
    of the render sequence; the bubble then shows that error message.  Hence
    the bubble sits on the last AI message and only when that message is the
    last item overall; when the last item is not an AI message, or the error
    gives no message to show, no item carries a bubble. *)
Theorem error_bubble_placement `{HostLibrary} (σ : store) (stream : Stream) (view : View) :
  toolCalls_typed σ (messages stream) →
  render σ stream = Normal view →
  ∃ shown,
    renderSequence σ (messages stream) = Normal shown ∧
    item_message <$> rendered_items view = shown ∧
    (∀ k item, rendered_items view !! k = Some item →
       (is_Some (item_error item) ↔
          errorMessage_set (error stream) = true ∧
          isAIMessage (VObj (σ (item_message item))) = Normal true ∧
          S k = length shown) ∧
       (is_Some (item_error item) → item_error item = errorMessage (error stream))) ∧
    (∀ item, last (rendered_items view) = Some item →
       isAIMessage (VObj (σ (item_message item))) = Normal false →
       Forall (λ it, item_error it = None) (rendered_items view)) ∧
    (errorMessage_set (error stream) = false →
       Forall (λ it, item_error it = None) (rendered_items view)) ∧
    (errorMessage_set (error stream) = true ↔
       ∃ s, s ≠ "" ∧ (error stream = ErrorObject s ∨ error stream = OtherValue (VStr s))).
Proof.
  intros Htyped Hrender.
  destruct (render_view_returned σ stream view Htyped Hrender)
    as (map & shown & _ & Hshown & _ & _ & Hmsgs & Hitems).
  assert (Herr : ∀ k item, rendered_items view !! k = Some item →
      item_error item =
        if errorMessage_set (error stream)
           && is_true (isAIMessage (VObj (σ (item_message item))))
           && (S k =? length shown)%nat
        then errorMessage (error stream) else None).
  { intros k item Hk. by destruct (Hitems k item Hk) as (_ & _ & _ & _ & ?). }
  exists shown. split; [exact Hshown|]. split; [exact Hmsgs|].
  assert (Hset : errorMessage_set (error stream) = true →
                 is_Some (errorMessage (error stream))).
  { unfold errorMessage_set. destruct (errorMessage (error stream)); [by eexists|done]. }
  assert (Hiff : ∀ k item, rendered_items view !! k = Some item →
    (is_Some (item_error item) ↔
       errorMessage_set (error stream) = true ∧
       isAIMessage (VObj (σ (item_message item))) = Normal true ∧
       S k = length shown) ∧
    (is_Some (item_error item) → item_error item = errorMessage (error stream))).
  { intros k item Hk. rewrite (Herr k item Hk).
    rewrite (isAIMessage_stored σ (item_message item)) at 2.
    destruct (errorMessage_set (error stream)) eqn:Es;
      destruct (is_true (isAIMessage (VObj (σ (item_message item))))) eqn:Ea;
      destruct (Nat.eqb_spec (S k) (length shown)) as [El|El]; cbn [andb];
      (split; [split|]);
      try (by intros [? [=]]); try (by intros (? & ? & ?)); try done.
    intros _. by apply Hset. }
  split; [exact Hiff|].
  split; [|split].
  - intros item Hlast Hnot. apply Forall_forall. intros it [k Hk]%list_elem_of_lookup.
    destruct (item_error it) as [e|] eqn:He; [|done].
    destruct (Hiff k it Hk) as [[Hfwd _] _].
    destruct Hfwd as (_ & Hai & Hk'); [by rewrite He; eexists|].
    rewrite last_lookup in Hlast.
    assert (Hlen : length (rendered_items view) = length shown)
      by (by rewrite <- Hmsgs, length_fmap).
    rewrite Hlen, <- Hk' in Hlast. cbn [Nat.pred] in Hlast.
    rewrite Hk in Hlast. inversion Hlast; subst. congruence.
  - intros Hunset. apply Forall_forall. intros it [k Hk]%list_elem_of_lookup.
    rewrite (Herr k it Hk), Hunset. reflexivity.
  - unfold errorMessage_set, errorMessage. split.
    + destruct (error stream) as [s|v].
      * destruct (String.eqb_spec s ""); [done|]. intros _. exists s. by split; [|left].
      * destruct v as [| | | |s| |]; try done.
        destruct (String.eqb_spec s ""); [done|]. intros _. exists s. by split; [|right].
    + intros (s & Hs & [-> | ->]); by destruct (String.eqb_spec s "").
Qed.

Lemma error_bubble_placement_witness :
  ∃ view,
    render (H := plain_data) search_session failed_stream = Normal view ∧
    ∃ shown,
      renderSequence search_session (messages failed_stream) = Normal shown ∧
      item_message <$> rendered_items view = shown ∧
      (∀ k item, rendered_items view !! k = Some item →
         (is_Some (item_error item) ↔
            errorMessage_set (error failed_stream) = true ∧
            isAIMessage (H := plain_data) (VObj (search_session (item_message item)))
              = Normal true ∧
            S k = length shown) ∧
         (is_Some (item_error item) → item_error item = errorMessage (error failed_stream))) ∧
      (∀ item, last (rendered_items view) = Some item →
         isAIMessage (H := plain_data) (VObj (search_session (item_message item)))
           = Normal false →
         Forall (λ it, item_error it = None) (rendered_items view)) ∧
      (errorMessage_set (error failed_stream) = false →
         Forall (λ it, item_error it = None) (rendered_items view)) ∧
      (errorMessage_set (error failed_stream) = true ↔
         ∃ s, s ≠ "" ∧ (error failed_stream = ErrorObject s
                        ∨ error failed_stream = OtherValue (VStr s))).
Proof.
  eexists. split; [vm_compute; reflexivity|].
  apply (error_bubble_placement (H := plain_data) search_session failed_stream).
  - apply (bool_decide_unpack _). vm_compute. exact I.
  - vm_compute. reflexivity.
Defined.

(** C6, as stated, fails when the error that is present gives no message
    to show: with an [Error] whose message is empty, or an error that is
    neither an [Error] nor a string, the last item is an AI message and yet
    no item carries the bubble. *)
Lemma error_bubble_counterexample :
  ∃ view item,
    render (H := plain_data) search_session empty_error_stream = Normal view ∧
    last (rendered_items view) = Some item ∧
    isAIMessage (H := plain_data) (VObj (search_session (item_message item))) = Normal true ∧
    Forall (λ it, item_error it = None) (rendered_items view) ∧
    ∃ view' item',
      render (H := plain_data) search_session loading_stream = Normal view' ∧
      last (rendered_items view') = Some item' ∧
      isAIMessage (H := plain_data) (VObj (search_session (item_message item'))) = Normal true ∧
      Forall (λ it, item_error it = None) (rendered_items view').
Proof.
  eexists _, _. split; [by vm_compute|]. split; [reflexivity|]. split; [by vm_compute|].
  split; [by repeat constructor|].
  eexists _, _. split; [by vm_compute|]. split; [reflexivity|]. split; [by vm_compute|].
  by repeat constructor.
Qed.

(** ** The send handler *)

Lemma messageToSend_default (messageOverride : option string) :
  match messageOverride with
  | Some s => if String.eqb s "" then "" else s
  | None => ""
  end = default "" messageOverride.
Proof.
  destruct messageOverride as [s|]; [|done]. cbn.
  destruct (String.eqb_spec s ""); by subst.
Qed.

(** What [handleSend] does, by cases. *)
Lemma handleSend_cases (apiKey : string) (loading : bool) (messageOverride : option string) :
  handleSend apiKey loading messageOverride =
  if String.eqb (trim (default "" messageOverride)) "" || loading then []
  else if String.eqb (trim apiKey) "" then []
  else [ VObj [ ("messages",
                 VArr [ VObj [ ("content", VStr (default "" messageOverride));
                               ("type", VStr "human") ] ]) ] ].
Proof. unfold handleSend. by rewrite messageToSend_default. Qed.

(** C7. The send handler does not call the submission interface, and
    returns normally, whenever the outgoing text is empty after trimming or
    a submission is in flight; a call to [submit] is made only when the
    trimmed text is non-empty and no submission is in flight, and then only
    once.  Whitespace-only text while not loading makes no call. *)
Theorem handleSend_guard (apiKey : string) (loading : bool) (messageOverride : option string) :
  (trim (default "" messageOverride) = "" ∨ loading = true →
     handleSend apiKey loading messageOverride = []) ∧
  (handleSend apiKey loading messageOverride ≠ [] →
     trim (default "" messageOverride) ≠ "" ∧ loading = false) ∧
  (length (handleSend apiKey loading messageOverride) ≤ 1)%nat ∧
  handleSend "sk-test" false (Some "   ") = [] ∧
  handleSend "sk-test" false None = [] ∧
  handleSend "sk-test" true (Some "hi") = [].
Proof.
  rewrite handleSend_cases.
  destruct (String.eqb_spec (trim (default "" messageOverride)) "") as [Ht|Ht];
    destruct loading; cbn [orb].
  all: split; [try done; intros [?|?]; done|].
  all: split; [try done|].
  all: split; [try (cbn; lia); destruct (String.eqb (trim apiKey) ""); cbn; lia|].
  all: repeat split; reflexivity.
Qed.

(** C8 (amended). Every call the handler makes to the submission interface
    passes [{messages: [{content: text, type: "human"}]}]: a messages list
    with a single entry, whose content is the outgoing text exactly as it
    was handed to the handler (its trimmed form is non-empty, the text
    itself is not trimmed) and which is tagged as a human message by a
    [type] field equal to "human". *)
Theorem submit_payload (apiKey : string) (loading : bool) (messageOverride : option string)
    (payload : value) :
  payload ∈ handleSend apiKey loading messageOverride →
  ∃ text,
    messageOverride = Some text ∧
    trim text ≠ "" ∧
    payload = VObj [ ("messages",
                      VArr [ VObj [ ("content", VStr text); ("type", VStr "human") ] ]) ] ∧
    handleSend apiKey loading messageOverride = [payload].
Proof.
  rewrite handleSend_cases.
  destruct (String.eqb_spec (trim (default "" messageOverride)) "") as [Ht|Ht]; cbn [orb];
    [by intros ?%elem_of_nil|].
  destruct loading; [by intros ?%elem_of_nil|].
  destruct (String.eqb (trim apiKey) ""); [by intros ?%elem_of_nil|].
  intros ->%list_elem_of_singleton.
  destruct messageOverride as [text|]; [|by destruct Ht].
  by exists text.
Qed.

Lemma submit_payload_witness :
  ∃ text,
    Some " hi " = Some text ∧
    trim text ≠ "" ∧
    VObj [ ("messages", VArr [ VObj [ ("content", VStr " hi "); ("type", VStr "human") ] ]) ]
    = VObj [ ("messages", VArr [ VObj [ ("content", VStr text); ("type", VStr "human") ] ]) ] ∧
    handleSend "sk-test" false (Some " hi ")
    = [ VObj [ ("messages",
                VArr [ VObj [ ("content", VStr " hi "); ("type", VStr "human") ] ]) ] ].
Proof.
  apply (submit_payload "sk-test" false (Some " hi ")).
  vm_compute. apply list_elem_of_here.
Defined.

(** C8, as stated, fails: the entry of an accepted submission has no
    [role] field (reading it yields [undefined], not "human"); the tag is in
    its [type] field.  And the content is the text as passed, here with its
    surrounding blanks, not its trimmed form. *)
Lemma submit_payload_counterexample :
  ∃ entry,
    handleSend "sk-test" false (Some " hi ") = [ VObj [ ("messages", VArr [entry]) ] ] ∧
    Get entry "role" = Normal VUndefined ∧
    Get entry "type" = Normal (VStr "human") ∧
    Get entry "content" = Normal (VStr " hi ") ∧
    trim " hi " = "hi".
Proof. eexists. repeat split; reflexivity. Qed.

(** ** The agent route *)

Section RouteProperties.
Import Route.
Context `{Agent}.

(** The two responses the handler builds itself. *)
Lemma POST_missing_key (request : NextRequest) (body apiKey : value) :
  json request = Fulfilled body →
  Get body "apiKey" = Normal apiKey →
  ToBoolean apiKey = false →
  POST request =
  Fulfilled {| body := JSON_stringify (VObj [ ("error", VStr "Missing API key") ]);
               status := 400;
               headers := json_headers |}.
Proof. unfold POST. intros -> Hkey Hfalsy. cbn. rewrite Hkey. cbn. by rewrite Hfalsy. Qed.

Lemma POST_parse_failure (request : NextRequest) (error : thrown) :
  json request = Rejected error →
  POST request =
  Fulfilled {| body := JSON_stringify (VObj [ ("error", VStr (error_text error)) ]);
               status := 500;
               headers := json_headers |}.
Proof. unfold POST. by intros ->. Qed.

Lemma POST_nullish_body (request : NextRequest) (body : value) :
  json request = Fulfilled body →
  nullish body = true →
  ∃ message,
    POST request =
    Fulfilled {| body := JSON_stringify (VObj [ ("error", VStr message) ]);
                 status := 500;
                 headers := json_headers |}.
Proof. unfold POST. intros -> Hnull. destruct body; try discriminate; by eexists. Qed.

(** With a truthy key the handler settles as the agent call does. *)
Lemma POST_with_key (request : NextRequest) (body apiKey : value) :
  json request = Fulfilled body →
  Get body "apiKey" = Normal apiKey →
  ToBoolean apiKey = true →
  POST request =
  match basicAgent body with
  | Throw error =>
      Fulfilled {| body := JSON_stringify (VObj [ ("error", VStr (error_text error)) ]);
                   status := 500;
                   headers := json_headers |}
  | Normal (Plain response) => Fulfilled response
  | Normal (Promise p) => p
  end.
Proof.
  unfold POST. intros -> Hkey Htruthy. cbn. rewrite Hkey. cbn. rewrite Htruthy. cbn.
  by destruct (basicAgent body) as [[response|p]|error].
Qed.
End RouteProperties.

(** C9. A failure of the agent that arrives as the rejection of the promise
    its call returns is not answered with status 500: the handler returns
    the promise without awaiting it, so its own promise rejects with the
    agent's error and no response is produced.  (Requests without a key are
    answered 400 and failures raised inside the handler 500, see
    [POST_missing_key], [POST_parse_failure] and [POST_with_key].) *)
Theorem POST_agent_rejection_escapes :
  Route.POST (H := rejecting_agent)
    {| Route.json := Route.Fulfilled (VObj [ ("apiKey", VStr "sk-test"); ("messages", VArr []) ]) |}
  = Route.Rejected (ErrorInstance "Error" "model request failed")
  ∧
  Route.POST (H := streaming_agent)
    {| Route.json := Route.Fulfilled (VObj [ ("apiKey", VStr "sk-test"); ("messages", VArr []) ]) |}
  = Route.Fulfilled {| Route.body := Route.agent_stream 0;
                       Route.status := 200;
                       Route.headers := [ ("Content-Type", "text/event-stream") ] |}
  ∧
  Route.POST (H := rejecting_agent)
    {| Route.json := Route.Fulfilled (VObj [ ("messages", VArr []) ]) |}
  = Route.Fulfilled {| Route.body := Route.JSON_stringify (VObj [ ("error", VStr "Missing API key") ]);
                       Route.status := 400;
                       Route.headers := Route.json_headers |}
  ∧
  Route.POST (H := rejecting_agent)
    {| Route.json := Route.Rejected (ErrorInstance "SyntaxError" "Unexpected end of JSON input") |}
  = Route.Fulfilled {| Route.body := Route.JSON_stringify
                                       (VObj [ ("error", VStr "Unexpected end of JSON input") ]);
                       Route.status := 500;
                       Route.headers := Route.json_headers |}.
Proof. repeat split; reflexivity. Qed.

(** ** The request hook of the transport *)

Lemma own_set_field_eq (fields : list (string * value)) (key : string) (v : value) :
  own (Transport.set_field fields key v) key = Some v.
Proof.
  induction fields as [|[k x] rest IH]; cbn.
  - by rewrite String.eqb_refl.
  - destruct (String.eqb k key) eqn:E; cbn; by rewrite E.
Qed.

Lemma own_set_field_ne (fields : list (string * value)) (key other : string) (v : value) :
  other ≠ key → own (Transport.set_field fields key v) other = own fields other.
Proof.
  intros Hne. induction fields as [|[k x] rest IH]; cbn.
  - destruct (String.eqb_spec key other); [congruence|done].
  - destruct (String.eqb_spec k key) as [->|Hk]; cbn.
    + destruct (String.eqb_spec key other); [congruence|done].
    + destruct (String.eqb k other); [done|exact IH].
Qed.

(** X1. The hook puts the component's key into the body: whenever the
    original body parses, the hook returns a request whose body is the JSON
    text of an object whose [apiKey] is the key, whatever the original body
    held under [apiKey], and that text parses back to this object. *)
Theorem onRequest_injects_key (apiKeyValue url : string) (init : Transport.RequestInit)
    (parsed : value) :
  Transport.JSON_parse (Transport.body init) = Normal parsed →
  ∃ out fields,
    Transport.onRequest apiKeyValue url init = Normal out ∧
    Transport.body out = Transport.JSON_stringify (VObj fields) ∧
    Transport.JSON_parse (Transport.body out) = Normal (VObj fields) ∧
    Get (VObj fields) "apiKey" = Normal (VStr apiKeyValue).
Proof.
  intros Hparse. unfold Transport.onRequest. rewrite Hparse. cbn [mbind completion_bind].
  eexists _, _. split; [reflexivity|]. cbn [Transport.body].
  split; [reflexivity|]. split; [reflexivity|].
  rewrite Get_object. unfold prop, Get. by rewrite own_set_field_eq.
Qed.

Lemma onRequest_injects_key_witness :
  ∃ out fields,
    Transport.onRequest "sk-test" "/api/basic" plain_init = Normal out ∧
    Transport.body out = Transport.JSON_stringify (VObj fields) ∧
    Transport.JSON_parse (Transport.body out) = Normal (VObj fields) ∧
    Get (VObj fields) "apiKey" = Normal (VStr "sk-test").
Proof.
  apply (onRequest_injects_key "sk-test" "/api/basic" plain_init
           (VObj [ ("input", VObj [ ("messages", VArr []) ]); ("apiKey", VStr "stale") ])).
  reflexivity.
Defined.

(** X2. The hook keeps the rest of the body: every field of a parsed
    object body other than [apiKey] reads in the new body as it did in the
    original; a body that parses to a falsy value ([null], [false], 0, the
    empty string) is replaced by the object that holds the key alone. *)
Theorem onRequest_keeps_body_fields (apiKeyValue url : string) (init : Transport.RequestInit)
    (parsed : value) :
  Transport.JSON_parse (Transport.body init) = Normal parsed →
  ∃ out fields,
    Transport.onRequest apiKeyValue url init = Normal out ∧
    Transport.body out = Transport.JSON_stringify (VObj fields) ∧
    (∀ original key, parsed = VObj original → key ≠ "apiKey" →
       Get (VObj fields) key = Get parsed key) ∧
    (ToBoolean parsed = false → fields = [ ("apiKey", VStr apiKeyValue) ]).
Proof.
  intros Hparse. unfold Transport.onRequest. rewrite Hparse. cbn [mbind completion_bind].
  eexists _, _. split; [reflexivity|]. cbn [Transport.body]. split; [reflexivity|]. split.
  - intros original key -> Hkey. rewrite !Get_object. unfold prop, Get.
    cbn [or_else ToBoolean Transport.spread]. by rewrite own_set_field_ne.
  - intros Hfalsy. unfold or_else. by rewrite Hfalsy.
Qed.

Lemma onRequest_keeps_body_fields_witness :
  ∃ out fields,
    Transport.onRequest "sk-test" "/api/basic" plain_init = Normal out ∧
    Transport.body out = Transport.JSON_stringify (VObj fields) ∧
    (∀ original key,
       VObj [ ("input", VObj [ ("messages", VArr []) ]); ("apiKey", VStr "stale") ]
       = VObj original →
       key ≠ "apiKey" →
       Get (VObj fields) key
       = Get (VObj [ ("input", VObj [ ("messages", VArr []) ]); ("apiKey", VStr "stale") ]) key) ∧
    (ToBoolean (VObj [ ("input", VObj [ ("messages", VArr []) ]); ("apiKey", VStr "stale") ])
     = false →
     fields = [ ("apiKey", VStr "sk-test") ]).
Proof.
  apply (onRequest_keeps_body_fields "sk-test" "/api/basic" plain_init
           (VObj [ ("input", VObj [ ("messages", VArr []) ]); ("apiKey", VStr "stale") ])).
  reflexivity.
Defined.

(** X3. The request the hook returns is a POST whose [Content-Type]
    header is [application/json]; every other header of an object of
    headers, and every other field of the original request, is kept.  The
    hook fails exactly when the original body does not parse, and then with
    the parser's error. *)
Theorem onRequest_request_shape (apiKeyValue url : string) (init : Transport.RequestInit) :
  (∀ error, Transport.onRequest apiKeyValue url init = Throw error ↔
            Transport.JSON_parse (Transport.body init) = Throw error) ∧
  (∀ out, Transport.onRequest apiKeyValue url init = Normal out →
     Transport.method out = VStr "POST" ∧
     Get (Transport.headers out) "Content-Type" = Normal (VStr "application/json") ∧
     (∀ original name, Transport.headers init = VObj original → name ≠ "Content-Type" →
        Get (Transport.headers out) name = Get (Transport.headers init) name) ∧
     Transport.others out = Transport.others init).
Proof.
  unfold Transport.onRequest.
  destruct (Transport.JSON_parse (Transport.body init)) as [parsed|e];
    cbn [mbind completion_bind]; split.
  - intros error. split; discriminate.
  - intros out [= <-]. cbn [Transport.method Transport.headers Transport.others].
    split; [done|]. split.
    + rewrite Get_object. unfold prop, Get. by rewrite own_set_field_eq.
    + split; [|done]. intros original name -> Hname.
      rewrite !Get_object. unfold prop, Get. cbn [Transport.spread].
      by rewrite own_set_field_ne.
  - intros error. split; intros [= ->]; reflexivity.
  - discriminate.
Qed.

(** ** Blank texts, the page and the key *)

Lemma trimEnd_kept_head (c : ascii) (rest : string) :
  is_white_space c = false → trimEnd (String c rest) ≠ "".
Proof. intros Hc. cbn [trimEnd]. destruct (trimEnd rest); [by rewrite Hc|done]. Qed.

(** [trim] leaves something exactly when the string holds a character it
    does not strip. *)
Lemma trim_non_blank (s : string) : trim s ≠ "" ↔ non_blank s.
Proof.
  unfold trim, non_blank. induction s as [|c rest IH]; cbn [trimStart list_ascii_of_string].
  - split; [done|]. by intros (c & Hc%elem_of_nil & _).
  - destruct (is_white_space c) eqn:Hc.
    + rewrite IH. split; intros (d & Hd & Hws).
      * exists d. split; [by apply list_elem_of_further|done].
      * apply elem_of_cons in Hd as [->|Hd]; [congruence|by exists d].
    + split.
      * intros _. exists c. split; [apply list_elem_of_here|done].
      * intros _. by apply trimEnd_kept_head.
Qed.

Lemma trim_blank (s : string) : trim s = "" ↔ ¬ non_blank s.
Proof.
  rewrite <- trim_non_blank. destruct (String.eqb_spec (trim s) ""); split; tauto.
Qed.

(** X4. The send handler calls [submit] exactly when the text it is given
    holds a character that is not white space, no submission is in flight,
    and the key holds a character that is not white space: a blank key
    blocks every send, silently. *)
Theorem handleSend_submits_iff (apiKey : string) (loading : bool)
    (messageOverride : option string) :
  handleSend apiKey loading messageOverride ≠ [] ↔
  (∃ text, messageOverride = Some text ∧ non_blank text) ∧
  loading = false ∧
  non_blank apiKey.
Proof.
  rewrite handleSend_cases.
  destruct (String.eqb_spec (trim (default "" messageOverride)) "") as [Ht|Ht]; cbn [orb].
  - split; [done|]. intros [(text & -> & Htext) _]. by apply trim_non_blank in Htext.
  - destruct loading; [split; [done|]; by intros (_ & ? & _)|].
    destruct (String.eqb_spec (trim apiKey) "") as [Hk|Hk].
    + split; [done|]. intros (_ & _ & Hkey). by apply trim_non_blank in Hkey.
    + split; [|done]. intros _. split; [|split; [done|by apply trim_non_blank]].
      destruct messageOverride as [text|]; [|done].
      exists text. split; [done|]. by apply trim_non_blank.
Qed.

(** X5. The page shows the chat exactly when its key holds a character
    that is not white space, and then with that very key; so inside the
    chat the page shows, the handler's key check never blocks: a send goes
    out exactly when the text is not blank and no submission is in
    flight. *)
Theorem Home_gates_the_chat (apiKey : string) :
  (Home apiKey = ChatInterface apiKey ↔ non_blank apiKey) ∧
  (Home apiKey = ApiKeyInput apiKey ↔ ¬ non_blank apiKey) ∧
  (∀ shown, Home apiKey = ChatInterface shown →
     shown = apiKey ∧
     ∀ loading messageOverride,
       handleSend shown loading messageOverride ≠ [] ↔
       (∃ text, messageOverride = Some text ∧ non_blank text) ∧ loading = false).
Proof.
  unfold Home. destruct (String.eqb_spec (trim apiKey) "") as [Hk|Hk].
  - split; [|split].
    + split; [done|]. intros Hn. by apply trim_non_blank in Hn.
    + split; [|done]. intros _. by apply trim_blank.
    + done.
  - assert (Hn : non_blank apiKey) by (by apply trim_non_blank).
    split; [|split].
    + done.
    + split; [done|]. tauto.
    + intros shown [= <-]. split; [done|]. intros loading messageOverride.
      rewrite handleSend_submits_iff. tauto.
Qed.

(** X6. From the page to the route.  When the chat is shown for a key,
    the hook has built a request for that key, and the route receives the
    body of that request, the route's key check passes: the body reads the
    key under [apiKey], the key is truthy, and the handler hands the body to
    the agent and settles as that call does. *)
Theorem shown_chat_request_passes_key_check `{Route.Agent} (apiKey url : string)
    (init out : Transport.RequestInit) (sent : value) (request : Route.NextRequest) :
  Home apiKey = ChatInterface apiKey →
  Transport.onRequest apiKey url init = Normal out →
  Transport.JSON_parse (Transport.body out) = Normal sent →
  Route.json request = Route.Fulfilled sent →
  Get sent "apiKey" = Normal (VStr apiKey) ∧
  ToBoolean (VStr apiKey) = true ∧
  Route.POST request =
    match Route.basicAgent sent with
    | Throw error =>
        Route.Fulfilled
          {| Route.body := Route.JSON_stringify (VObj [ ("error", VStr (Route.error_text error)) ]);
             Route.status := 500;
             Route.headers := Route.json_headers |}
    | Normal (Route.Plain response) => Route.Fulfilled response
    | Normal (Route.Promise p) => p
    end.
Proof.
  intros Hhome Hhook Hsent Hjson.
  assert (Hkey : apiKey ≠ "").
  { intros ->. revert Hhome. by vm_compute. }
  unfold Transport.onRequest in Hhook.
  destruct (Transport.JSON_parse (Transport.body init)) as [parsed|]; [|discriminate].
  cbn [mbind completion_bind] in Hhook. inversion Hhook; subst out. clear Hhook.
  cbn in Hsent. inversion Hsent; subst sent. clear Hsent.
  assert (Hget : Get (VObj (Transport.set_field (Transport.spread (or_else parsed (VObj [])))
                                                "apiKey" (VStr apiKey))) "apiKey"
                 = Normal (VStr apiKey)).
  { rewrite Get_object. unfold prop, Get. by rewrite own_set_field_eq. }
  assert (Htruthy : ToBoolean (VStr apiKey) = true).
  { cbn. by destruct (String.eqb_spec apiKey ""). }
  split; [exact Hget|]. split; [exact Htruthy|].
  by apply (POST_with_key request _ (VStr apiKey)).
Qed.

Lemma shown_chat_request_passes_key_check_witness :
  Get (VObj [ ("input", VObj [ ("messages", VArr []) ]); ("apiKey", VStr "sk-test") ]) "apiKey"
  = Normal (VStr "sk-test") ∧
  ToBoolean (VStr "sk-test") = true ∧
  Route.POST (H := streaming_agent)
    {| Route.json := Route.Fulfilled
         (VObj [ ("input", VObj [ ("messages", VArr []) ]); ("apiKey", VStr "sk-test") ]) |} =
    match Route.basicAgent (Agent := streaming_agent)
            (VObj [ ("input", VObj [ ("messages", VArr []) ]); ("apiKey", VStr "sk-test") ]) with
    | Throw error =>
        Route.Fulfilled
          {| Route.body := Route.JSON_stringify (VObj [ ("error", VStr (Route.error_text error)) ]);
             Route.status := 500;
             Route.headers := Route.json_headers |}
    | Normal (Route.Plain response) => Route.Fulfilled response
    | Normal (Route.Promise p) => p
    end.
Proof.
  apply (shown_chat_request_passes_key_check (H := streaming_agent) "sk-test" "/api/basic"
           plain_init
           {| Transport.method := VStr "POST";
              Transport.headers := VObj [ ("Accept", VStr "text/event-stream");
                                          ("Content-Type", VStr "application/json") ];
              Transport.body :=
                Transport.JSON_text (VObj [ ("input", VObj [ ("messages", VArr []) ]);
                                            ("apiKey", VStr "sk-test") ]);
              Transport.others := [ ("signal", VObj []) ] |}
           (VObj [ ("input", VObj [ ("messages", VArr []) ]); ("apiKey", VStr "sk-test") ])
           {| Route.json := Route.Fulfilled
                (VObj [ ("input", VObj [ ("messages", VArr []) ]); ("apiKey", VStr "sk-test") ]) |}).
  - reflexivity.
  - reflexivity.
  - reflexivity.
  - reflexivity.
Defined.

(** ** Roles and texts *)

(** X7. The roles exclude one another as far as the tag decides: no value
    is both a tool and a human message; a value tagged "ai" is neither; and
    a value that classifies as AI and also as tool or human message does so
    only because the library reports it as an AI instance. *)
Theorem roles_exclusive `{HostLibrary} (v : value) :
  ¬ (isToolMessage v = Normal true ∧ isHumanMessage v = Normal true) ∧
  (prop v "type" = VStr "ai" →
     isToolMessage v = Normal false ∧ isHumanMessage v = Normal false) ∧
  (isAIMessage v = Normal true →
     isToolMessage v = Normal true ∨ isHumanMessage v = Normal true →
     AIMessage_isInstance v = true) ∧
  (AIMessage_isInstance v = false →
     isAIMessage v = Normal true →
     isToolMessage v = Normal false ∧ isHumanMessage v = Normal false).
Proof.
  assert (Hcases : (isAIMessage v = Normal false ∧ isToolMessage v = Normal false ∧
                    isHumanMessage v = Normal false ∧ prop v "type" ≠ VStr "ai") ∨
                   ∃ tag, isAIMessage v = Normal (strict_eq tag (VStr "ai") || AIMessage_isInstance v) ∧
                          isToolMessage v = Normal (strict_eq tag (VStr "tool")) ∧
                          isHumanMessage v = Normal (strict_eq tag (VStr "human")) ∧
                          prop v "type" = tag).
  { destruct v as [| |b|n|s|items|fields].
    - left. by vm_compute.
    - left. by vm_compute.
    - left. unfold isAIMessage, isToolMessage, isHumanMessage. cbn [ToBoolean typeof].
      destruct b; by vm_compute.
    - left. unfold isAIMessage, isToolMessage, isHumanMessage. cbn [ToBoolean typeof].
      destruct (negb (n =? 0)%Z); by vm_compute.
    - left. unfold isAIMessage, isToolMessage, isHumanMessage, prop, Get.
      cbn [ToBoolean typeof]. destruct (negb (String.eqb s "")); by vm_compute.
    - right. exists VUndefined. by vm_compute.
    - right. exists (prop (VObj fields) "type").
      by rewrite isAIMessage_object, isToolMessage_object, isHumanMessage_object. }
  destruct Hcases as [(Hai & Ht & Hh & Htag)|(tag & Hai & Ht & Hh & Htag)].
  - rewrite Hai, Ht, Hh. repeat split; try done. by intros [[=] _].
  - rewrite Hai, Ht, Hh, Htag. clear Hai Ht Hh Htag.
    destruct (strict_eq tag (VStr "tool")) eqn:Et;
      destruct (strict_eq tag (VStr "human")) eqn:Eh;
      destruct (strict_eq tag (VStr "ai")) eqn:Ea;
      try apply strict_eq_str in Et; try apply strict_eq_str in Eh;
      try apply strict_eq_str in Ea; subst; try discriminate;
      cbn [orb]; repeat split; try done;
      try (by intros [[=] _]); try (by intros [_ [=]]);
      try (by intros _ [[=]|[=]]); try (by intros [=]);
      try (by intros -> [=]); try (by intros [=] _).
    all: try (intros ->; discriminate).
    all: congruence.
Qed.

Lemma concat_fragments_app (first second : list value) :
  concat_fragments (first ++ second) =
  (t1 ← concat_fragments first; t2 ← concat_fragments second; Normal (t1 +:+ t2)).
Proof.
  induction first as [|x first IH]; cbn [app concat_fragments mbind completion_bind].
  - by destruct (concat_fragments second).
  - destruct (fragment_text x) as [t|e]; [|reflexivity]. cbn [mbind completion_bind].
    rewrite IH. destruct (concat_fragments first) as [t1|e]; [|reflexivity].
    cbn [mbind completion_bind].
    destruct (concat_fragments second) as [t2|e]; [|reflexivity].
    cbn [mbind completion_bind]. by rewrite append_assoc.
Qed.

(** X8. Text extraction follows the fragments: extracting the text of a
    list of fragments put after another is extracting the text of the first,
    then that of the second, and joining the two, so no fragment is dropped
    or reordered; the joined list has a text exactly when both lists have
    one, and fails as the first list does when that one fails.  A text reads
    the same whether the content is the string itself, a one-fragment list
    holding the string, a one-fragment list holding an object with that
    [text], or such an object alone. *)
Theorem extractTextContent_fragments (first second : list value) (s : string) :
  extractTextContent (VArr (first ++ second)) =
    (t1 ← extractTextContent (VArr first);
     t2 ← extractTextContent (VArr second);
     Normal (t1 +:+ t2)) ∧
  (∀ t1 t2,
     extractTextContent (VArr first) = Normal t1 →
     extractTextContent (VArr second) = Normal t2 →
     extractTextContent (VArr (first ++ second)) = Normal (t1 +:+ t2)) ∧
  (∀ e, extractTextContent (VArr first) = Throw e →
     extractTextContent (VArr (first ++ second)) = Throw e) ∧
  (∀ t1 e,
     extractTextContent (VArr first) = Normal t1 →
     extractTextContent (VArr second) = Throw e →
     extractTextContent (VArr (first ++ second)) = Throw e) ∧
  extractTextContent (VArr [ VStr s ]) = extractTextContent (VStr s) ∧
  extractTextContent (VArr [ VObj [ ("text", VStr s) ] ]) = extractTextContent (VStr s) ∧
  extractTextContent (VObj [ ("text", VStr s) ]) = extractTextContent (VStr s).
Proof.
  assert (Happ : extractTextContent (VArr (first ++ second)) =
                 (t1 ← extractTextContent (VArr first);
                  t2 ← extractTextContent (VArr second);
                  Normal (t1 +:+ t2)))
    by (rewrite !extractTextContent_array; apply concat_fragments_app).
  split; [exact Happ|].
  split; [by intros t1 t2 H1 H2; rewrite Happ, H1, H2|].
  split; [by intros e H1; rewrite Happ, H1|].
  split; [by intros t1 e H1 H2; rewrite Happ, H1, H2|].
  repeat split; rewrite ?extractTextContent_array; cbn; by rewrite ?append_empty_r.
Qed.

(** X9. What the extraction makes of content that carries no text: the
    empty list and every falsy value ([undefined], [null], [false], 0, the
    empty string) give the empty string, and so does a list whose fragments
    are neither strings nor objects with a [text]; but an object without a
    [text] attribute is printed: it gives the text "[object Object]", or,
    when it has a field [toString] of its own, makes the extraction throw a
    [TypeError]. *)
Theorem extractTextContent_without_text :
  extractTextContent (VArr []) = Normal "" ∧
  (∀ v, ToBoolean v = false → extractTextContent v = Normal "") ∧
  (∀ items, Forall (λ item, fragment_text item = Normal "") items →
     extractTextContent (VArr items) = Normal "") ∧
  (∀ items, Forall (λ item, match item with
                            | VStr _ => False
                            | VObj fields => own fields "text" = None
                            | _ => True
                            end) items →
     extractTextContent (VArr items) = Normal "") ∧
  (∀ fields, own fields "text" = None → own fields "toString" = None →
     extractTextContent (VObj fields) = Normal "[object Object]") ∧
  (∀ fields f, own fields "text" = None → own fields "toString" = Some f →
     extractTextContent (VObj fields) = Throw not_convertible).
Proof.
  assert (Hempty : ∀ items, Forall (λ item, fragment_text item = Normal "") items →
                            extractTextContent (VArr items) = Normal "").
  { intros items Hitems. rewrite extractTextContent_array.
    induction Hitems as [|x l Hx _ IH]; [done|].
    cbn [concat_fragments]. by rewrite Hx, IH. }
  split; [reflexivity|]. split; [|split; [exact Hempty|split; [|split]]].
  - intros v Hv. destruct v as [| |b|n|s|items|fields]; try discriminate; try reflexivity.
    + cbn in Hv. by subst b.
    + cbn in Hv. apply negb_false_iff, Z.eqb_eq in Hv. by subst n.
    + cbn in Hv. apply negb_false_iff, String.eqb_eq in Hv. by subst s.
  - intros items Hitems. apply Hempty. eapply Forall_impl; [exact Hitems|].
    intros [| | | | | |fields]; cbn; try done. by intros ->.
  - intros fields Hnone Hprints. rewrite extractTextContent_object, Hnone.
    cbn [ToString]. by rewrite Hprints.
  - intros fields f Hnone Hhidden. rewrite extractTextContent_object, Hnone.
    cbn [ToString]. by rewrite Hhidden.
Qed.

(** ** What a state is matched to *)

Lemma find_Some_first {A} (p : A → bool) (l : list A) (x : A) :
  List.find p l = Some x →
  p x = true ∧
  ∃ i, l !! i = Some x ∧ ∀ i' y, i' < i → l !! i' = Some y → p y = false.
Proof.
  induction l as [|y l IH]; cbn [List.find]; [done|].
  destruct (p y) eqn:Hy.
  - intros [= ->]. split; [done|]. exists 0. split; [done|]. intros i' z Hlt. lia.
  - intros Hfind. destruct (IH Hfind) as (Hx & i & Hi & Hfirst). split; [done|].
    exists (S i). split; [done|]. intros [|i'] z Hlt Hz; cbn in Hz.
    + by inversion Hz; subst.
    + apply (Hfirst i' z); [lia|done].
Qed.

Lemma find_None_iff {A} (p : A → bool) (l : list A) :
  List.find p l = None ↔ ∀ x, x ∈ l → p x = false.
Proof.
  induction l as [|y l IH]; cbn [List.find].
  - split; [|done]. by intros _ x Hx%elem_of_nil.
  - destruct (p y) eqn:Hy.
    + split; [done|]. intros Hall. rewrite Hall in Hy by apply list_elem_of_here. done.
    + rewrite IH. split.
      * intros Hall x [->|Hx]%elem_of_cons; [done|by apply Hall].
      * intros Hall x Hx. by apply Hall, list_elem_of_further.
Qed.

Lemma find_app_None {A} (p : A → bool) (l extra : list A) :
  List.find p l = None → List.find p (l ++ extra) = List.find p extra.
Proof.
  induction l as [|y l IH]; cbn [List.find app]; [done|].
  destruct (p y); [done|exact IH].
Qed.

(** A state of the map of a typed pass, in terms of its entry's message. *)
Lemma toolCallsByMessage_state `{HostLibrary} (σ : store) (all : list loc)
    (map : gmap loc (list ToolCallState)) (m : loc) (states : list ToolCallState)
    (st : ToolCallState) :
  toolCalls_typed σ all →
  toolCallsByMessage σ all = Normal map →
  map !! m = Some states →
  st ∈ states →
  ∃ j, last_position all m j ∧
       toolCall st ∈ toolCalls_of σ m ∧
       toolMessage st = first_answer σ all (prop (toolCall st) "id") ∧
       aiMessageId st = or_else (prop (VObj (σ m)) "id") (VStr ("msg-" +:+ pretty j)) ∧
       timestamp st = (Z.of_nat j * 1000)%Z.
Proof.
  intros Htyped Hrun Hm Hst.
  destruct (toolCallsByMessage_entry σ all map m states Htyped Hrun Hm)
    as (_ & _ & j & Hj & ->).
  exists j. split; [exact Hj|].
  unfold states_at in Hst. apply list_elem_of_fmap in Hst as (tc & -> & Htc). by cbn.
Qed.

(** X10. A match is sound and earliest.  Whenever a state of the map
    names a tool message, that message classifies as a tool message, its
    [tool_call_id] is truthy and strictly equal to the id of the state's
    tool call, it stands in the sequence, and no message before that place
    answers the id. *)
Theorem toolMessage_sound `{HostLibrary} (σ : store) (all : list loc)
    (map : gmap loc (list ToolCallState)) (m : loc) (states : list ToolCallState)
    (st : ToolCallState) (tm : loc) :
  toolCalls_typed σ all →
  toolCallsByMessage σ all = Normal map →
  map !! m = Some states →
  st ∈ states →
  toolMessage st = Some tm →
  isToolMessage (VObj (σ tm)) = Normal true ∧
  ToBoolean (prop (VObj (σ tm)) "tool_call_id") = true ∧
  strict_eq (prop (VObj (σ tm)) "tool_call_id") (prop (toolCall st) "id") = true ∧
  ∃ i, all !! i = Some tm ∧
       ∀ i' earlier, i' < i → all !! i' = Some earlier →
         answers σ (prop (toolCall st) "id") earlier = false.
Proof.
  intros Htyped Hrun Hm Hst Htm.
  destruct (toolCallsByMessage_state σ all map m states st Htyped Hrun Hm Hst)
    as (j & _ & _ & Hmatch & _).
  rewrite Htm in Hmatch. symmetry in Hmatch.
  apply find_Some_first in Hmatch as (Hanswers & i & Hi & Hfirst).
  unfold answers in Hanswers. apply andb_true_iff in Hanswers as [Hanswers Heq].
  apply andb_true_iff in Hanswers as [Htool Htruthy].
  split; [by rewrite isToolMessage_stored, Htool|].
  split; [done|]. split; [done|]. by exists i.
Qed.

Lemma toolMessage_sound_witness :
  isToolMessage (VObj (search_session 2)) = Normal true ∧
  ToBoolean (prop (VObj (search_session 2)) "tool_call_id") = true ∧
  strict_eq (prop (VObj (search_session 2)) "tool_call_id")
            (prop (toolCall t1_completed) "id") = true ∧
  ∃ i, [0; 1; 2] !! i = Some 2 ∧
       ∀ i' earlier, i' < i → [0; 1; 2] !! i' = Some earlier →
         answers search_session (prop (toolCall t1_completed) "id") earlier = false.
Proof.
  apply (toolMessage_sound (H := plain_data) search_session [0; 1; 2]
           {[ 1 := [t1_completed] ]} 1 [t1_completed] t1_completed 2).
  - apply (bool_decide_unpack _). vm_compute. exact I.
  - vm_compute. reflexivity.
  - vm_compute. reflexivity.
  - apply list_elem_of_here.
  - reflexivity.
Defined.

(** X11. A state is pending exactly when no message of the sequence
    answers its tool call: none that classifies as a tool message and has a
    truthy [tool_call_id] strictly equal to the call's id. *)
Theorem toolMessage_pending_iff `{HostLibrary} (σ : store) (all : list loc)
    (map : gmap loc (list ToolCallState)) (m : loc) (states : list ToolCallState)
    (st : ToolCallState) :
  toolCalls_typed σ all →
  toolCallsByMessage σ all = Normal map →
  map !! m = Some states →
  st ∈ states →
  toolMessage st = None ↔
  ∀ msg, msg ∈ all →
    ¬ (isToolMessage (VObj (σ msg)) = Normal true ∧
       ToBoolean (prop (VObj (σ msg)) "tool_call_id") = true ∧
       strict_eq (prop (VObj (σ msg)) "tool_call_id") (prop (toolCall st) "id") = true).
Proof.
  intros Htyped Hrun Hm Hst.
  destruct (toolCallsByMessage_state σ all map m states st Htyped Hrun Hm Hst)
    as (j & _ & _ & -> & _).
  unfold first_answer. rewrite find_None_iff. unfold answers.
  split; intros Hall msg Hmsg.
  - intros (Htool & Htruthy & Heq). specialize (Hall msg Hmsg).
    rewrite isToolMessage_stored in Htool. inversion Htool as [Ht].
    by rewrite Ht, Htruthy, Heq in Hall.
  - destruct (is_true (isToolMessage (VObj (σ msg)))) eqn:Ht; [|done].
    destruct (ToBoolean (prop (VObj (σ msg)) "tool_call_id")) eqn:Htruthy; [|done].
    destruct (strict_eq _ _) eqn:Heq; [|done].
    destruct (Hall msg Hmsg). by rewrite isToolMessage_stored, Ht.
Qed.

Lemma toolMessage_pending_iff_witness :
  toolMessage t1_pending = None ↔
  ∀ msg, msg ∈ [0; 1] →
    ¬ (isToolMessage (VObj (search_session msg)) = Normal true ∧
       ToBoolean (prop (VObj (search_session msg)) "tool_call_id") = true ∧
       strict_eq (prop (VObj (search_session msg)) "tool_call_id")
                 (prop (toolCall t1_pending) "id") = true).
Proof.
  apply (toolMessage_pending_iff (H := plain_data) search_session [0; 1]
           {[ 1 := [t1_pending] ]} 1 [t1_pending] t1_pending).
  - apply (bool_decide_unpack _). vm_compute. exact I.
  - vm_compute. reflexivity.
  - vm_compute. reflexivity.
  - apply list_elem_of_here.
Defined.

(** X12. The match depends on the id alone: two states whose tool calls
    carry the same id name the same tool message (or are both pending),
    also when they belong to different AI messages.  Calls of different
    turns that share an id therefore all show the first result with that
    id. *)
Theorem same_id_same_toolMessage `{HostLibrary} (σ : store) (all : list loc)
    (map : gmap loc (list ToolCallState)) (m1 m2 : loc)
    (states1 states2 : list ToolCallState) (st1 st2 : ToolCallState) :
  toolCalls_typed σ all →
  toolCallsByMessage σ all = Normal map →
  map !! m1 = Some states1 →
  map !! m2 = Some states2 →
  st1 ∈ states1 →
  st2 ∈ states2 →
  prop (toolCall st1) "id" = prop (toolCall st2) "id" →
  toolMessage st1 = toolMessage st2.
Proof.
  intros Htyped Hrun Hm1 Hm2 Hst1 Hst2 Hid.
  destruct (toolCallsByMessage_state σ all map m1 states1 st1 Htyped Hrun Hm1 Hst1)
    as (_ & _ & _ & -> & _).
  destruct (toolCallsByMessage_state σ all map m2 states2 st2 Htyped Hrun Hm2 Hst2)
    as (_ & _ & _ & -> & _).
  by rewrite Hid.
Qed.

Lemma same_id_same_toolMessage_witness :
  toolMessage (t1_collided 0) = toolMessage (t1_collided 2).
Proof.
  apply (same_id_same_toolMessage (H := plain_data) collision_session [0; 1; 2; 3]
           {[ 0 := [t1_collided 0]; 2 := [t1_collided 2] ]}
           0 2 [t1_collided 0] [t1_collided 2] (t1_collided 0) (t1_collided 2)).
  - apply (bool_decide_unpack _). vm_compute. exact I.
  - vm_compute. reflexivity.
  - vm_compute. reflexivity.
  - vm_compute. reflexivity.
  - apply list_elem_of_here.
  - apply list_elem_of_here.
  - reflexivity.
Defined.

(** X13. Timestamps follow positions.  The states of one message share
    their timestamp and their message id; states of different messages
    carry different timestamps, each a thousand times the last position of
    its message, so that timestamps order the states of different messages
    as their messages stand in the sequence. *)
Theorem timestamps_follow_positions `{HostLibrary} (σ : store) (all : list loc)
    (map : gmap loc (list ToolCallState)) (m1 m2 : loc)
    (states1 states2 : list ToolCallState) (st1 st2 : ToolCallState) :
  toolCalls_typed σ all →
  toolCallsByMessage σ all = Normal map →
  map !! m1 = Some states1 →
  map !! m2 = Some states2 →
  st1 ∈ states1 →
  st2 ∈ states2 →
  (m1 = m2 → timestamp st1 = timestamp st2 ∧ aiMessageId st1 = aiMessageId st2) ∧
  (m1 ≠ m2 → timestamp st1 ≠ timestamp st2) ∧
  ∃ j1 j2,
    last_position all m1 j1 ∧ last_position all m2 j2 ∧
    timestamp st1 = (Z.of_nat j1 * 1000)%Z ∧
    timestamp st2 = (Z.of_nat j2 * 1000)%Z ∧
    (j1 < j2 ↔ (timestamp st1 < timestamp st2)%Z).
Proof.
  intros Htyped Hrun Hm1 Hm2 Hst1 Hst2.
  destruct (toolCallsByMessage_state σ all map m1 states1 st1 Htyped Hrun Hm1 Hst1)
    as (j1 & Hj1 & _ & _ & Hid1 & Ht1).
  destruct (toolCallsByMessage_state σ all map m2 states2 st2 Htyped Hrun Hm2 Hst2)
    as (j2 & Hj2 & _ & _ & Hid2 & Ht2).
  split; [|split].
  - intros <-. assert (j1 = j2) as <- by (by eapply last_position_unique).
    by rewrite Ht1, Ht2, Hid1, Hid2.
  - intros Hne. rewrite Ht1, Ht2. intros Heq.
    assert (j1 = j2) as <- by lia.
    destruct Hj1 as [Hj1 _], Hj2 as [Hj2 _]. congruence.
  - exists j1, j2. split; [exact Hj1|]. split; [exact Hj2|].
    split; [exact Ht1|]. split; [exact Ht2|]. rewrite Ht1, Ht2. lia.
Qed.

Lemma timestamps_follow_positions_witness :
  (0 = 2 → timestamp (t1_collided 0) = timestamp (t1_collided 2) ∧
           aiMessageId (t1_collided 0) = aiMessageId (t1_collided 2)) ∧
  (0 ≠ 2 → timestamp (t1_collided 0) ≠ timestamp (t1_collided 2)) ∧
  ∃ j1 j2,
    last_position [0; 1; 2; 3] 0 j1 ∧ last_position [0; 1; 2; 3] 2 j2 ∧
    timestamp (t1_collided 0) = (Z.of_nat j1 * 1000)%Z ∧
    timestamp (t1_collided 2) = (Z.of_nat j2 * 1000)%Z ∧
    (j1 < j2 ↔ (timestamp (t1_collided 0) < timestamp (t1_collided 2))%Z).
Proof.
  apply (timestamps_follow_positions (H := plain_data) collision_session [0; 1; 2; 3]
           {[ 0 := [t1_collided 0]; 2 := [t1_collided 2] ]}
           0 2 [t1_collided 0] [t1_collided 2] (t1_collided 0) (t1_collided 2)).
  - apply (bool_decide_unpack _). vm_compute. exact I.
  - vm_compute. reflexivity.
  - vm_compute. reflexivity.
  - vm_compute. reflexivity.
  - apply list_elem_of_here.
  - apply list_elem_of_here.
Defined.

(** X14. A pending call is completed by the first answer that arrives.
    When the pass over [S] leaves a tool call pending, the pass over [S]
    with further messages appended matches the same call to the first of
    the appended messages that answers its id, and leaves it pending when
    none of them does. *)
Theorem pending_completed_by_append `{HostLibrary} (σ : store) (S extra : list loc)
    (map : gmap loc (list ToolCallState)) (message : loc)
    (states : list ToolCallState) (k : nat) (st : ToolCallState) :
  toolCalls_typed σ (S ++ extra) →
  toolCallsByMessage σ S = Normal map →
  map !! message = Some states →
  states !! k = Some st →
  toolMessage st = None →
  ∃ map' states' st',
    toolCallsByMessage σ (S ++ extra) = Normal map' ∧
    map' !! message = Some states' ∧
    states' !! k = Some st' ∧
    toolCall st' = toolCall st ∧
    toolMessage st' = first_answer σ extra (prop (toolCall st) "id").
Proof.
  intros Htyped Hrun Hm Hk Htm.
  destruct (toolCallsByMessage_entry σ S map message states
              (toolCalls_typed_app_l σ S extra Htyped) Hrun Hm)
    as (Hin & Howns & j & Hj & ->).
  destruct (toolCallsByMessage_typed σ (S ++ extra) Htyped) as (map' & Hrun' & Hlook).
  assert (Hin' : message ∈ S ++ extra) by (apply elem_of_app; by left).
  destruct (last_position_exists _ _ Hin') as [j' Hj'].
  destruct (Hlook message) as [Hlast _].
  unfold states_at in Hk. rewrite list_lookup_fmap in Hk.
  destruct (toolCalls_of σ message !! k) as [tc|] eqn:Htc; [|discriminate].
  cbn in Hk. inversion Hk; subst st. cbn in Htm. cbn [toolCall]. clear Hk.
  eexists map', (states_at σ (S ++ extra) j' message), _.
  split; [exact Hrun'|]. split; [by apply Hlast|].
  split; [unfold states_at; by rewrite list_lookup_fmap, Htc|].
  split; [reflexivity|]. cbn. by apply find_app_None.
Qed.

Lemma pending_completed_by_append_witness :
  ∃ map' states' st',
    toolCallsByMessage (H := plain_data) search_session ([0; 1] ++ [2]) = Normal map' ∧
    map' !! 1 = Some states' ∧
    states' !! 0 = Some st' ∧
    toolCall st' = toolCall t1_pending ∧
    toolMessage st' = first_answer search_session [2] (prop (toolCall t1_pending) "id").
Proof.
  apply (pending_completed_by_append (H := plain_data) search_session [0; 1] [2]
           {[ 1 := [t1_pending] ]} 1 [t1_pending] 0 t1_pending).
  - apply (bool_decide_unpack _). vm_compute. exact I.
  - vm_compute. reflexivity.
  - vm_compute. reflexivity.
  - reflexivity.
  - reflexivity.
Defined.

(** ** What the render shows *)

(** X15. The welcome screen stands for the empty sequence only: a view
    that the render of a typed sequence returns is the welcome screen
    exactly when there is no message at all, and otherwise a timeline whose
    trailing loading dots are shown exactly while the stream is loading; a
    sequence that holds tool messages only gives an empty timeline, not the
    welcome screen.  The render of the empty sequence always returns. *)
Theorem welcome_screen_iff_no_message `{HostLibrary} (σ : store) (stream : Stream)
    (view : View) :
  toolCalls_typed σ (messages stream) →
  render σ stream = Normal view →
  (view = WelcomeScreen ↔ messages stream = []) ∧
  (messages stream ≠ [] → view = Timeline (rendered_items view) (isLoading stream)) ∧
  (rendered_items view = [] ↔
     Forall (λ m, isToolMessage (VObj (σ m)) = Normal true) (messages stream)) ∧
  (∀ isLoading error,
     render σ {| messages := []; isLoading := isLoading; error := error |}
     = Normal WelcomeScreen).
Proof.
  intros Htyped Hrender.
  destruct (render_view_returned σ stream view Htyped Hrender)
    as (map & shown & _ & Hshown & Hwelcome & Hdots & Hmsgs & _).
  split; [exact Hwelcome|]. split; [|split; [|reflexivity]].
  - intros Hne. destruct view as [|items dots]; [by destruct Hne; apply Hwelcome|].
    by rewrite (Hdots items dots eq_refl).
  - rewrite renderSequence_filter in Hshown. inversion Hshown as [Hs]. clear Hshown.
    assert (Hnil : rendered_items view = [] ↔ shown = []).
    { rewrite <- Hmsgs. split; [by intros ->|]. by intros ?%fmap_nil_inv. }
    rewrite Hnil, <- Hs. clear. induction (messages stream) as [|m l IH]; cbn [List.filter].
    + split; [constructor|done].
    + pose proof (isToolMessage_stored σ m) as Hm.
      destruct (is_true (isToolMessage (VObj (σ m)))) eqn:E; cbn [negb].
      * rewrite IH. split; [by constructor|by intros [_ ?]%Forall_cons].
      * split; [done|]. intros [Htool _]%Forall_cons. congruence.
Qed.

Lemma welcome_screen_iff_no_message_witness :
  ∃ view,
    render (H := plain_data) search_session failed_stream = Normal view ∧
    (view = WelcomeScreen ↔ messages failed_stream = []) ∧
    (messages failed_stream ≠ [] →
       view = Timeline (rendered_items view) (isLoading failed_stream)) ∧
    (rendered_items view = [] ↔
       Forall (λ m, isToolMessage (VObj (search_session m)) = Normal true)
              (messages failed_stream)) ∧
    (∀ isLoading error,
       render (H := plain_data) search_session
              {| messages := []; isLoading := isLoading; error := error |}
       = Normal WelcomeScreen).
Proof.
  eexists. split; [vm_compute; reflexivity|].
  apply (welcome_screen_iff_no_message (H := plain_data) search_session failed_stream).
  - apply (bool_decide_unpack _). vm_compute. exact I.
  - vm_compute. reflexivity.
Defined.

(** X16. In a view that the render of a typed sequence returns, a message
    gets a text bubble exactly when the text extracted from its content is
    not empty; the bubble shows that text, and it is aligned to the end
    exactly when the message classifies as a human message.  A message
    whose text is empty shows no bubble at all. *)
Theorem bubble_iff_text `{HostLibrary} (σ : store) (stream : Stream) (view : View) :
  toolCalls_typed σ (messages stream) →
  render σ stream = Normal view →
  ∀ k item, rendered_items view !! k = Some item →
    (item_bubble item = None ↔
       extractTextContent (prop (VObj (σ (item_message item))) "content") = Normal "") ∧
    (∀ b, item_bubble item = Some b →
       extractTextContent (prop (VObj (σ (item_message item))) "content")
         = Normal (bubble_text b) ∧
       bubble_text b ≠ "" ∧
       (alignment b = justify_end ↔
          isHumanMessage (VObj (σ (item_message item))) = Normal true)).
Proof.
  intros Htyped Hrender k item Hk.
  destruct (render_view_returned σ stream view Htyped Hrender)
    as (map & shown & _ & _ & _ & _ & _ & Hitems).
  destruct (Hitems k item Hk) as (Htext & _ & Hbubble & _). rewrite Hbubble, Htext.
  clear Hbubble Htext. set (text := text_of σ (item_message item)).
  rewrite isHumanMessage_object.
  destruct (String.eqb_spec text "") as [->|Htext]; cbn [negb].
  - split; [done|]. by intros b [=].
  - split; [split; [done|by intros [= ->]]|].
    intros b [= <-]. cbn. split; [done|]. split; [done|].
    destruct (strict_eq _ _); split; done.
Qed.

Lemma bubble_iff_text_witness :
  ∃ view,
    render (H := plain_data) search_session loading_stream = Normal view ∧
    ∀ k item, rendered_items view !! k = Some item →
      (item_bubble item = None ↔
         extractTextContent (prop (VObj (search_session (item_message item))) "content")
           = Normal "") ∧
      (∀ b, item_bubble item = Some b →
         extractTextContent (prop (VObj (search_session (item_message item))) "content")
           = Normal (bubble_text b) ∧
         bubble_text b ≠ "" ∧
         (alignment b = justify_end ↔
            isHumanMessage (VObj (search_session (item_message item))) = Normal true)).
Proof.
  eexists. split; [vm_compute; reflexivity|].
  apply (bubble_iff_text (H := plain_data) search_session loading_stream).
  - apply (bool_decide_unpack _). vm_compute. exact I.
  - vm_compute. reflexivity.
Defined.

(** X17. The loading cursor is never mid-sequence: in a view that the
    render of a typed sequence returns, a bubble carries the cursor exactly
    when the stream is loading and its message is the last item of the
    render sequence.  So at most the last item carries it, and when the last
    item has no bubble (its text is empty) no item does. *)
Theorem cursor_only_on_last `{HostLibrary} (σ : store) (stream : Stream) (view : View) :
  toolCalls_typed σ (messages stream) →
  render σ stream = Normal view →
  (∀ k item b, rendered_items view !! k = Some item → item_bubble item = Some b →
     (cursor b = true ↔
        isLoading stream = true ∧ S k = length (rendered_items view))) ∧
  (∀ item, last (rendered_items view) = Some item → item_bubble item = None →
     Forall (λ it, ∀ b, item_bubble it = Some b → cursor b = false)
            (rendered_items view)).
Proof.
  intros Htyped Hrender.
  destruct (render_view_returned σ stream view Htyped Hrender)
    as (map & shown & _ & _ & _ & _ & Hmsgs & Hitems).
  assert (Hlen : length (rendered_items view) = length shown)
    by (by rewrite <- Hmsgs, length_fmap).
  assert (Hcursor : ∀ k item b, rendered_items view !! k = Some item →
            item_bubble item = Some b →
            (cursor b = true ↔ isLoading stream = true ∧ S k = length (rendered_items view))).
  { intros k item b Hk Hb. destruct (Hitems k item Hk) as (_ & _ & Hbubble & _).
    rewrite Hbubble in Hb. destruct (negb _); [|discriminate].
    rewrite Hlen.
    destruct (Nat.eqb_spec (S k) (length shown)) as [E|E], (isLoading stream);
      injection Hb as <-; cbn [cursor andb]; intuition congruence. }
  split; [exact Hcursor|].
  intros item Hlast Hnone. apply Forall_forall.
  intros it [k Hk]%list_elem_of_lookup b Hb.
  destruct (cursor b) eqn:Hc; [|done].
  apply (Hcursor k it b Hk Hb) in Hc as [_ Hk'].
  rewrite last_lookup, <- Hk' in Hlast. cbn [Nat.pred] in Hlast.
  rewrite Hk in Hlast. inversion Hlast; subst. congruence.
Qed.

Lemma cursor_only_on_last_witness :
  ∃ view,
    render (H := plain_data) search_session loading_stream = Normal view ∧
    (∀ k item b, rendered_items view !! k = Some item → item_bubble item = Some b →
       (cursor b = true ↔
          isLoading loading_stream = true ∧ S k = length (rendered_items view))) ∧
    (∀ item, last (rendered_items view) = Some item → item_bubble item = None →
       Forall (λ it, ∀ b, item_bubble it = Some b → cursor b = false)
              (rendered_items view)).
Proof.
  eexists. split; [vm_compute; reflexivity|].
  apply (cursor_only_on_last (H := plain_data) search_session loading_stream).
  - apply (bool_decide_unpack _). vm_compute. exact I.
  - vm_compute. reflexivity.
Defined.

(** X18. The tool-call bubbles of a rendered message are the states the
    pass built for it.  In a view that the render of a typed sequence
    returns, a message that owns tool calls shows one bubble per tool call,
    in the order of its list, keyed by the call's id and carrying the state
    with the call's match, and every other message shows no tool-call
    bubble. *)
Theorem toolCall_bubbles `{HostLibrary} (σ : store) (stream : Stream) (view : View) :
  toolCalls_typed σ (messages stream) →
  render σ stream = Normal view →
  ∀ k item, rendered_items view !! k = Some item →
    (owns_toolCalls σ (item_message item) →
       ∃ j, last_position (messages stream) (item_message item) j ∧
            (item_toolCalls item).*2 = states_at σ (messages stream) j (item_message item) ∧
            (item_toolCalls item).*1
              = (λ tc, prop tc "id") <$> toolCalls_of σ (item_message item)) ∧
    (¬ owns_toolCalls σ (item_message item) → item_toolCalls item = []).
Proof.
  intros Htyped Hrender k item Hk.
  destruct (render_view_returned σ stream view Htyped Hrender)
    as (map & shown & Hrun & Hshown & _ & _ & Hmsgs & Hitems).
  destruct (toolCallsByMessage_typed σ _ Htyped) as (map' & Hrun' & Hlook).
  rewrite Hrun in Hrun'. inversion Hrun'; subst map'. clear Hrun'.
  destruct (Hitems k item Hk) as (_ & _ & _ & Hcalls & _). rewrite Hcalls. clear Hcalls.
  set (m := item_message item).
  assert (Hin : m ∈ messages stream).
  { rewrite renderSequence_filter in Hshown. inversion Hshown as [Hs].
    assert (Hm : m ∈ shown).
    { rewrite <- Hmsgs. apply list_elem_of_fmap. exists item.
      split; [done|]. by eapply list_elem_of_lookup_2. }
    rewrite <- Hs in Hm. by apply list_elem_of_In, filter_In in Hm as [?%list_elem_of_In _]. }
  destruct (Hlook m) as [Hlast Hnone]. split.
  - intros Howns. destruct (last_position_exists _ _ Hin) as [j Hj].
    exists j. split; [exact Hj|].
    destruct Howns as [Hai Hitems'] eqn:E. rewrite Hai. unfold is_true.
    rewrite (Hlast (conj Hai Hitems') j Hj). cbn [default].
    rewrite <- !list_fmap_compose. split.
    + apply list_fmap_id.
    + unfold states_at, id. rewrite <- list_fmap_compose. by apply list_fmap_ext.
  - intros Hnot. rewrite (Hnone (or_intror Hnot)). cbn [default].
    by destruct (is_true _).
Qed.

Lemma toolCall_bubbles_witness :
  ∃ view,
    render (H := plain_data) search_session loading_stream = Normal view ∧
    ∀ k item, rendered_items view !! k = Some item →
      (owns_toolCalls (H := plain_data) search_session (item_message item) →
         ∃ j, last_position (messages loading_stream) (item_message item) j ∧
              (item_toolCalls item).*2
                = states_at search_session (messages loading_stream) j (item_message item) ∧
              (item_toolCalls item).*1
                = (λ tc, prop tc "id") <$> toolCalls_of search_session (item_message item)) ∧
      (¬ owns_toolCalls (H := plain_data) search_session (item_message item) →
         item_toolCalls item = []).
Proof.
  eexists. split; [vm_compute; reflexivity|].
  apply (toolCall_bubbles (H := plain_data) search_session loading_stream).
  - apply (bool_decide_unpack _). vm_compute. exact I.
  - vm_compute. reflexivity.
Defined.

(** X19. Only an [Error] with a non-empty message, or a non-empty string,
    is ever shown: when the stream's error is anything else (absent, an
    object that is no [Error], an empty message), no message carries an
    error bubble in a view that the render of a typed sequence returns,
    whatever the messages. *)
Theorem other_errors_are_not_shown `{HostLibrary} (σ : store) (stream : Stream)
    (view : View) :
  toolCalls_typed σ (messages stream) →
  render σ stream = Normal view →
  (∀ s, s ≠ "" → error stream ≠ ErrorObject s ∧ error stream ≠ OtherValue (VStr s)) →
  Forall (λ item, item_error item = None) (rendered_items view).
Proof.
  intros Htyped Hrender Hother.
  destruct (render_view_returned σ stream view Htyped Hrender)
    as (map & shown & _ & _ & _ & _ & _ & Hitems).
  assert (Hset : errorMessage_set (error stream) = false).
  { unfold errorMessage_set, errorMessage.
    destruct (error stream) as [s|v] eqn:E.
    - destruct (String.eqb_spec s ""); [done|]. by destruct (Hother s) as [? _].
    - destruct v as [| | | |s| |]; try done.
      destruct (String.eqb_spec s ""); [done|]. by destruct (Hother s) as [_ ?]. }
  apply Forall_forall. intros item [k Hk]%list_elem_of_lookup.
  destruct (Hitems k item Hk) as (_ & _ & _ & _ & ->). by rewrite Hset.
Qed.

Lemma other_errors_are_not_shown_witness :
  ∃ view,
    render (H := plain_data) search_session loading_stream = Normal view ∧
    Forall (λ item, item_error item = None) (rendered_items view).
Proof.
  eexists. split; [vm_compute; reflexivity|].
  apply (other_errors_are_not_shown (H := plain_data) search_session loading_stream).
  - apply (bool_decide_unpack _). vm_compute. exact I.
  - vm_compute. reflexivity.
  - intros s _. split; discriminate.
Defined.

(** ** When the render fails *)

(** X24. The render of a typed sequence fails exactly on content that
    cannot be converted: it returns a view when the text of every message
    that is no tool message is extractable, and otherwise, when some such
    message holds content that [String] cannot convert, the whole render
    throws the [TypeError] of the conversion and nothing is shown.  The
    content of a tool message plays no part. *)
Theorem render_fails_on_unextractable_content `{HostLibrary} (σ : store) (stream : Stream) :
  toolCalls_typed σ (messages stream) →
  ((∃ view, render σ stream = Normal view) ↔ contents_extractable σ (messages stream)) ∧
  (¬ contents_extractable σ (messages stream) → render σ stream = Throw not_convertible).
Proof.
  intros Htyped. split; [|by apply render_throws]. split.
  - intros [view Hview].
    destruct (decide (contents_extractable σ (messages stream))) as [|Hnot]; [done|].
    rewrite (render_throws σ stream Htyped Hnot) in Hview. discriminate.
  - intros Hcontents.
    destruct (render_view_typed σ stream Htyped Hcontents)
      as (_ & _ & view & _ & _ & Hrender & _).
    by exists view.
Qed.

Lemma render_fails_on_unextractable_content_witness :
  ((∃ view, render (H := plain_data) unprintable_session failed_stream = Normal view)
   ↔ contents_extractable unprintable_session (messages failed_stream)) ∧
  (¬ contents_extractable unprintable_session (messages failed_stream) →
     render (H := plain_data) unprintable_session failed_stream = Throw not_convertible).
Proof.
  apply (render_fails_on_unextractable_content (H := plain_data)
           unprintable_session failed_stream).
  apply (bool_decide_unpack _). vm_compute. exact I.
Defined.

(** ** The route's answers *)

(** X20. Without a truthy key the agent plays no part: when the parsed
    body holds no truthy [apiKey] (the key is absent or falsy, the body is
    [null], or the body did not parse), the handler's answer is the same
    for every agent, and it is a JSON error response of the handler's own,
    with status 400 when the body parsed to something other than [null] or
    [undefined] and status 500 otherwise. *)
Theorem POST_without_key_ignores_agent (A B : Route.Agent) (request : Route.NextRequest) :
  (∀ body, Route.json request = Route.Fulfilled body →
           ToBoolean (prop body "apiKey") = false) →
  Route.POST (H := A) request = Route.POST (H := B) request ∧
  ∃ text status,
    Route.POST (H := A) request =
      Route.Fulfilled {| Route.body := Route.JSON_stringify (VObj [ ("error", VStr text) ]);
                         Route.status := status;
                         Route.headers := Route.json_headers |} ∧
    (status = 400%Z ∨ status = 500%Z) ∧
    (status = 400%Z ↔
       text = "Missing API key" ∧
       ∃ body, Route.json request = Route.Fulfilled body ∧ nullish body = false).
Proof.
  intros Hkey. destruct (Route.json request) as [body|e] eqn:Hjson.
  - specialize (Hkey body eq_refl). destruct (nullish body) eqn:Hnull.
    + assert (Hboth : ∀ agent : Route.Agent, ∃ text,
                Route.POST (H := agent) request =
                Route.Fulfilled
                  {| Route.body := Route.JSON_stringify (VObj [ ("error", VStr text) ]);
                     Route.status := 500;
                     Route.headers := Route.json_headers |} ∧
                text = Route.error_text
                         (match Get body "apiKey" with Throw e => e | Normal _ => ThrownValue body end)).
      { intros agent. unfold Route.POST. rewrite Hjson.
        destruct body; try discriminate; by eexists. }
      destruct (Hboth A) as (text & HA & Htext), (Hboth B) as (text' & HB & Htext').
      rewrite HA, HB, Htext, Htext'. split; [done|].
      eexists _, 500%Z. split; [reflexivity|]. split; [by right|].
      split; [done|]. intros (_ & body' & [= <-] & Hn). congruence.
    + pose proof (Get_not_nullish body "apiKey" Hnull) as Hget.
      rewrite (POST_missing_key (H := A) request body _ Hjson Hget Hkey).
      rewrite (POST_missing_key (H := B) request body _ Hjson Hget Hkey).
      split; [done|]. eexists _, 400%Z. split; [reflexivity|]. split; [by left|].
      split; [|done]. intros _. split; [done|]. by exists body.
  - rewrite (POST_parse_failure (H := A) request e Hjson).
    rewrite (POST_parse_failure (H := B) request e Hjson).
    split; [done|]. eexists _, 500%Z. split; [reflexivity|]. split; [by right|].
    split; [done|]. by intros (_ & body & [=] & _).
Qed.

Lemma POST_without_key_ignores_agent_witness :
  Route.POST (H := rejecting_agent) keyless_request
  = Route.POST (H := streaming_agent) keyless_request ∧
  ∃ text status,
    Route.POST (H := rejecting_agent) keyless_request =
      Route.Fulfilled {| Route.body := Route.JSON_stringify (VObj [ ("error", VStr text) ]);
                         Route.status := status;
                         Route.headers := Route.json_headers |} ∧
    (status = 400%Z ∨ status = 500%Z) ∧
    (status = 400%Z ↔
       text = "Missing API key" ∧
       ∃ body, Route.json keyless_request = Route.Fulfilled body ∧ nullish body = false).
Proof.
  apply (POST_without_key_ignores_agent rejecting_agent streaming_agent keyless_request).
  intros body [= <-]. reflexivity.
Defined.

(** X21. The handler's promise rejects in one way only: the request holds
    a truthy key and the promise the agent call returned rejects, with the
    same error.  In every other case (no key, a body that does not parse, an
    agent call that throws or answers) the handler's promise is fulfilled
    with a response. *)
Theorem POST_rejects_only_with_agent `{Route.Agent} (request : Route.NextRequest)
    (error : thrown) :
  Route.POST request = Route.Rejected error ↔
  ∃ body,
    Route.json request = Route.Fulfilled body ∧
    ToBoolean (prop body "apiKey") = true ∧
    Route.basicAgent body = Normal (Route.Promise (Route.Rejected error)).
Proof.
  destruct (Route.json request) as [body|e] eqn:Hjson.
  2:{ rewrite (POST_parse_failure request e Hjson). split; [done|]. by intros (? & [=] & _). }
  destruct (nullish body) eqn:Hnull.
  { split.
    - unfold Route.POST. rewrite Hjson. destruct body; try discriminate; by cbn.
    - intros (body' & [= <-] & Hkey & _). destruct body; try discriminate; by cbn in Hkey. }
  pose proof (Get_not_nullish body "apiKey" Hnull) as Hget.
  destruct (ToBoolean (prop body "apiKey")) eqn:Hkey.
  - rewrite (POST_with_key request body _ Hjson Hget Hkey). split.
    + intros Hrej. exists body. split; [done|]. split; [done|].
      destruct (Route.basicAgent body) as [[response|[response|e]]|e]; try discriminate.
      by inversion Hrej.
    + intros (body' & [= <-] & _ & ->). reflexivity.
  - rewrite (POST_missing_key request body _ Hjson Hget Hkey). split; [done|].
    intros (body' & [= <-] & Hkey' & _). congruence.
Qed.

(** X22. What a 500 answer tells.  A failure raised while the handler runs
    (the body does not parse, or the agent call throws) is answered with
    status 500 and, as error text, the message of the thrown [Error]; a
    thrown value that is no [Error] is not echoed: the text is then
    "Internal server error". *)
Theorem POST_internal_error_text `{Route.Agent} (request : Route.NextRequest) (error : thrown) :
  (Route.json request = Route.Rejected error ∨
   ∃ body, Route.json request = Route.Fulfilled body ∧
           nullish body = false ∧
           ToBoolean (prop body "apiKey") = true ∧
           Route.basicAgent body = Throw error) →
  Route.POST request =
    Route.Fulfilled
      {| Route.body := Route.JSON_stringify (VObj [ ("error", VStr (Route.error_text error)) ]);
         Route.status := 500;
         Route.headers := Route.json_headers |} ∧
  (∀ name message, error = ErrorInstance name message → Route.error_text error = message) ∧
  (∀ v, error = ThrownValue v → Route.error_text error = "Internal server error").
Proof.
  intros Hfail. split; [|split; intros; by subst].
  destruct Hfail as [Hjson|(body & Hjson & Hnull & Hkey & Hthrow)].
  - by apply POST_parse_failure.
  - rewrite (POST_with_key request body _ Hjson (Get_not_nullish body "apiKey" Hnull) Hkey).
    by rewrite Hthrow.
Qed.

Lemma POST_internal_error_text_witness :
  Route.POST (H := rejecting_agent)
    {| Route.json := Route.Rejected (ThrownValue (VStr "connection reset")) |} =
    Route.Fulfilled
      {| Route.body := Route.JSON_stringify
           (VObj [ ("error", VStr (Route.error_text (ThrownValue (VStr "connection reset")))) ]);
         Route.status := 500;
         Route.headers := Route.json_headers |} ∧
  (∀ name message, ThrownValue (VStr "connection reset") = ErrorInstance name message →
     Route.error_text (ThrownValue (VStr "connection reset")) = message) ∧
  (∀ v, ThrownValue (VStr "connection reset") = ThrownValue v →
     Route.error_text (ThrownValue (VStr "connection reset")) = "Internal server error").
Proof.
  apply (POST_internal_error_text (H := rejecting_agent)
           {| Route.json := Route.Rejected (ThrownValue (VStr "connection reset")) |}
           (ThrownValue (VStr "connection reset"))).
  left. reflexivity.
Defined.

(** ** The closing sort *)

(** X23. The sort that closes the pass never reorders anything: on a
    typed sequence the map the loop has built is already the map the pass
    returns, because all states of one entry carry the same timestamp and
    the sort is stable. *)
Theorem closing_sort_changes_nothing `{HostLibrary} (σ : store) (all : list loc) :
  toolCalls_typed σ all →
  ∃ map,
    Array_forEach (reconcile_message σ all) all ∅ = Normal map ∧
    toolCallsByMessage σ all = Normal map ∧
    ∀ m states, map !! m = Some states → sort_by_timestamp states = states.
Proof.
  intros Htyped.
  destruct (forEach_reconcile σ all all 0 ∅ Htyped) as (map & Hrun & Hlook).
  assert (Hsorted : ∀ m states, map !! m = Some states → sort_by_timestamp states = states).
  { intros m states Hm. destruct (Hlook m) as [Hlast Hkeep].
    destruct (decide (m ∈ all)) as [Hin|Hout];
      [|rewrite Hkeep, lookup_empty in Hm by (by left); discriminate].
    destruct (owns_toolCalls_b σ m) eqn:Howns;
      [|rewrite Hkeep, lookup_empty in Hm by (by right); discriminate].
    destruct (last_position_exists all m Hin) as [j Hj].
    rewrite (Hlast eq_refl j Hj) in Hm. inversion Hm. apply sort_states_at. }
  exists map. split; [exact Hrun|]. split; [|exact Hsorted].
  unfold toolCallsByMessage. unfold Array_forEach in Hrun. unfold Array_forEach.
  rewrite Hrun, bind_Normal. f_equal. apply map_eq. intros m. rewrite lookup_fmap.
  destruct (map !! m) as [states|] eqn:Hm; [|done]. cbn. f_equal. by eapply Hsorted.
Qed.

Lemma closing_sort_changes_nothing_witness :
  ∃ map,
    Array_forEach (reconcile_message (H := plain_data) collision_session [0; 1; 2; 3])
                  [0; 1; 2; 3] ∅ = Normal map ∧
    toolCallsByMessage (H := plain_data) collision_session [0; 1; 2; 3] = Normal map ∧
    ∀ m states, map !! m = Some states → sort_by_timestamp states = states.
Proof.
  apply (closing_sort_changes_nothing (H := plain_data) collision_session [0; 1; 2; 3]).
  apply (bool_decide_unpack _). vm_compute. exact I.
Defined.
